(** * Pod file explorer: listing parser, tree mutators and load controller

    A shallow embedding of
    [packages/core/src/renderer/components/node-pod-menu/pod-file-explorer-menu.tsx].

    The source file carries two generations of the dialog.  The development
    follows the current one (the [execFile] based dialog, the second half of
    the file); the functions of the superseded terminal based dialog that
    differ are embedded in [Module Legacy] for comparison.

    Modelling conventions.
    - A JavaScript string is a [string]: a sequence of code units below 256.
      On that range the white space of [String.prototype.trim] and of the
      regular expression class [\s] is TAB, LF, VT, FF, CR, SPACE and NBSP.
    - A JavaScript number that holds an integer is a [Z]; [NaN] is [None].
      The embedding is exact for magnitudes below 2^53.
    - An optional property ([size?], [expanded?], ...) is an [option];
      an absent property and a property holding [undefined] are both [None].
    - Code that can throw lives in the [result] monad. *)

From Stdlib Require Import String Ascii List ZArith Bool Arith Lia.
Import ListNotations.
Local Open Scope string_scope.

(** ** Exceptions *)

(** What a [catch (err)] clause can receive: an [Error] instance with its
    message, or any other thrown value. *)
Inductive Thrown : Type :=
| ErrorObject (message : string)
| OtherValue.

Inductive result (A : Type) : Type :=
| Ok (a : A)
| Throw (e : Thrown).
Arguments Ok {A} a.
Arguments Throw {A} e.

Definition bind {A B : Type} (m : result A) (k : A -> result B) : result B :=
  match m with
  | Ok a => k a
  | Throw e => Throw e
  end.

Notation "'let*' x ':=' m 'in' k" := (bind m (fun x => k))
  (at level 10, x name, m at level 100, k at level 200).

(** [Array.prototype.map] with a callback that may throw: the first throw
    aborts the whole map. *)
Fixpoint mapM {A B : Type} (f : A -> result B) (l : list A) : result (list B) :=
  match l with
  | [] => Ok []
  | a :: l' =>
      let* b := f a in
      let* bs := mapM f l' in
      Ok (b :: bs)
  end.

(** ** JavaScript string primitives *)

Module Js.

Definition LF : ascii := "010"%char.
Definition DQUOTE : ascii := "034"%char.
Definition BACKSLASH : ascii := "\"%char.

(** [WhiteSpace] and [LineTerminator] code units below 256. *)
Definition isWhiteSpace (c : ascii) : bool :=
  existsb (Ascii.eqb c)
    ["009"%char; "010"%char; "011"%char; "012"%char; "013"%char; " "%char; "160"%char].

Fixpoint trimStart (s : string) : string :=
  match s with
  | EmptyString => EmptyString
  | String c r => if isWhiteSpace c then trimStart r else s
  end.

Fixpoint trimEnd (s : string) : string :=
  match s with
  | EmptyString => EmptyString
  | String c r =>
      match trimEnd r with
      | EmptyString => if isWhiteSpace c then EmptyString else String c EmptyString
      | r' => String c r'
      end
  end.

(** [s.trim()] *)
Definition trim (s : string) : string := trimEnd (trimStart s).

(** [s.split(sep)] for a one-character separator. *)
Fixpoint split (sep : ascii) (s : string) : list string :=
  match s with
  | EmptyString => [EmptyString]
  | String c r =>
      if Ascii.eqb c sep then EmptyString :: split sep r
      else match split sep r with
           | h :: t => String c h :: t
           | [] => [String c EmptyString]
           end
  end.

(** [s.split(/\s+/)]: [inRun] tells that the previous character was white
    space, so that a run of white space separates once. *)
Fixpoint splitRuns (inRun : bool) (s : string) : list string :=
  match s with
  | EmptyString => [EmptyString]
  | String c r =>
      if isWhiteSpace c then
        if inRun then splitRuns true r else EmptyString :: splitRuns true r
      else match splitRuns false r with
           | h :: t => String c h :: t
           | [] => [String c EmptyString]
           end
  end.

Definition splitWhiteSpace (s : string) : list string := splitRuns false s.

(** [s.startsWith(p)] *)
Definition startsWith (s p : string) : bool := String.prefix p s.

(** [parts.join(sep)] *)
Definition join (sep : string) (parts : list string) : string :=
  String.concat sep parts.

(** [parts.slice(n)] *)
Definition slice {A : Type} (n : nat) (parts : list A) : list A := skipn n parts.

(** [s.replace(/c/g, by)] for a one-character pattern. *)
Fixpoint replaceAll (c : ascii) (by_ : string) (s : string) : string :=
  match s with
  | EmptyString => EmptyString
  | String x r =>
      if Ascii.eqb x c then by_ ++ replaceAll c by_ r
      else String x (replaceAll c by_ r)
  end.

Definition digitValue (c : ascii) : option Z :=
  let n := nat_of_ascii c in
  if (48 <=? n)%nat && (n <=? 57)%nat then Some (Z.of_nat (n - 48)) else None.

(** The longest prefix of decimal digits, read left to right; [None] when
    there is no digit at all. *)
Fixpoint readDigits (acc : option Z) (s : string) : option Z :=
  match s with
  | EmptyString => acc
  | String c r =>
      match digitValue c with
      | Some d =>
          readDigits (Some (10 * match acc with Some a => a | None => 0 end + d)%Z) r
      | None => acc
      end
  end.

(** [parseInt(s, 10)] of a defined argument: leading white space is
    skipped, one sign is accepted, then the digits. [None] is [NaN]. *)
Definition parseIntString (s : string) : option Z :=
  match trimStart s with
  | String "-" r => option_map Z.opp (readDigits None r)
  | String "+" r => readDigits None r
  | t => readDigits None t
  end.

(** [parseInt(parts[i], 10)]: an index out of range reads [undefined],
    whose string form holds no digit. *)
Definition parseInt (arg : option string) : option Z :=
  match arg with
  | Some s => parseIntString s
  | None => None
  end.

(** [!v] on an optional boolean property. *)
Definition falsy (v : option bool) : bool :=
  match v with
  | Some true => false
  | _ => true
  end.

End Js.

(** ** The data model *)

(** [interface FileEntry] *)
#[warnings="-register-all"] Inductive FileEntry : Type := mkFileEntry {
  name : string;
  path : string;
  isDirectory : bool;
  size : option Z;
  permissions : option string;
  expanded : option bool;
  children : option (list FileEntry);
  loading : option bool
}.

(** The value handed to [parseListOutput] at run time: the declared type is
    [string], the function itself guards against anything else. *)
Inductive RawOutput : Type :=
| StringValue (s : string)
| NonString (truthy : bool).

(** ** The listing parser *)

(** The callback of the second [map] in [parseListOutput]: one trimmed,
    non-blank line to an entry or [null]. *)
Definition parseLine (basePath : string) (line : string) : result (option FileEntry) :=
  let parts := Js.splitWhiteSpace line in
  if (length parts <? 9)%nat then Ok None
  else
    (* [parts[0]]; an undefined value has no [startsWith] method *)
    let* permissions :=
      match nth_error parts 0 with
      | Some p => Ok p
      | None => Throw (ErrorObject "Cannot read properties of undefined (reading 'startsWith')")
      end in
    let name := Js.join " " (Js.slice 8 parts) in
    let isDirectory := Js.startsWith permissions "d" in
    let size := Js.parseInt (nth_error parts 4) in
    let fullPath := if String.eqb basePath "/" then "/" ++ name else basePath ++ "/" ++ name in
    if String.eqb name "." || String.eqb name ".." then Ok None
    else
      Ok (Some {| name := name;
                  path := fullPath;
                  isDirectory := isDirectory;
                  size := if isDirectory then None else size;
                  permissions := Some permissions;
                  expanded := Some false;
                  children := if isDirectory then Some [] else None;
                  loading := None |}).

(** The predicate of the first [filter]. *)
Definition keepLine (line : string) : bool :=
  (0 <? String.length line)%nat && negb (Js.startsWith line "total").

(** The last [filter]: [Boolean(entry)] holds of every object and fails
    on [null]. *)
Fixpoint dropNull {A : Type} (l : list (option A)) : list A :=
  match l with
  | [] => []
  | Some a :: l' => a :: dropNull l'
  | None :: l' => dropNull l'
  end.

Definition parseLines (basePath : string) (lines : list string) : result (list FileEntry) :=
  let* entries := mapM (parseLine basePath) (filter keepLine (map Js.trim lines)) in
  Ok (dropNull entries).

Definition parseListOutput (output : RawOutput) (basePath : string) : result (list FileEntry) :=
  match output with
  | NonString _ => Ok []
  | StringValue EmptyString => Ok []
  | StringValue s => parseLines basePath (Js.split Js.LF s)
  end.

(** ** Tree mutators *)

Definition withExpanded (v : option bool) (file : FileEntry) : FileEntry :=
  {| name := name file; path := path file; isDirectory := isDirectory file;
     size := size file; permissions := permissions file;
     expanded := v; children := children file; loading := loading file |}.

Definition withChildren (v : option (list FileEntry)) (file : FileEntry) : FileEntry :=
  {| name := name file; path := path file; isDirectory := isDirectory file;
     size := size file; permissions := permissions file;
     expanded := expanded file; children := v; loading := loading file |}.

Definition withLoading (v : option bool) (file : FileEntry) : FileEntry :=
  {| name := name file; path := path file; isDirectory := isDirectory file;
     size := size file; permissions := permissions file;
     expanded := expanded file; children := children file; loading := v |}.

(** [updateFiles] of [toggleExpand]: [{ ...file, expanded: !file.expanded }]
    at a match, otherwise the children (when there are any) are rebuilt. *)
Fixpoint toggleExpand_file (targetPath : string) (file : FileEntry) : FileEntry :=
  if String.eqb (path file) targetPath then
    withExpanded (Some (Js.falsy (expanded file))) file
  else match children file with
       | Some cs => withChildren (Some (map (toggleExpand_file targetPath) cs)) file
       | None => file
       end.

Definition toggleExpand_updateFiles (targetPath : string) (files : list FileEntry) :=
  map (toggleExpand_file targetPath) files.

(** [updateFiles] of [loadChildren]: [{ ...file, loading: true }]. *)
Fixpoint loadChildren_file (targetPath : string) (file : FileEntry) : FileEntry :=
  if String.eqb (path file) targetPath then
    withLoading (Some true) file
  else match children file with
       | Some cs => withChildren (Some (map (loadChildren_file targetPath) cs)) file
       | None => file
       end.

Definition loadChildren_updateFiles (targetPath : string) (files : list FileEntry) :=
  map (loadChildren_file targetPath) files.

(** [updateFilesWithChildren]: [{ ...file, children, loading: false }]. *)
Fixpoint withChildren_file (targetPath : string) (loaded : list FileEntry)
    (file : FileEntry) : FileEntry :=
  if String.eqb (path file) targetPath then
    withLoading (Some false) (withChildren (Some loaded) file)
  else match children file with
       | Some cs => withChildren (Some (map (withChildren_file targetPath loaded) cs)) file
       | None => file
       end.

Definition updateFilesWithChildren (targetPath : string) (loaded : list FileEntry)
    (files : list FileEntry) :=
  map (withChildren_file targetPath loaded) files.

(** [updateFilesOnError]: [{ ...file, loading: false }]. *)
Fixpoint onError_file (targetPath : string) (file : FileEntry) : FileEntry :=
  if String.eqb (path file) targetPath then
    withLoading (Some false) file
  else match children file with
       | Some cs => withChildren (Some (map (onError_file targetPath) cs)) file
       | None => file
       end.

Definition updateFilesOnError (targetPath : string) (files : list FileEntry) :=
  map (onError_file targetPath) files.

(** The four mutators under one name. *)
Inductive Mutation : Type :=
| ToggleExpand
| BeginLoad
| ApplyChildren (loaded : list FileEntry)
| FailLoad.

Definition mutate (m : Mutation) (targetPath : string) (files : list FileEntry) :=
  match m with
  | ToggleExpand => toggleExpand_updateFiles targetPath files
  | BeginLoad => loadChildren_updateFiles targetPath files
  | ApplyChildren loaded => updateFilesWithChildren targetPath loaded files
  | FailLoad => updateFilesOnError targetPath files
  end.

(** The traversal the four closures share, with the effect at a match as a
    parameter.  It is used in proofs only. *)
Fixpoint updateNode (effect : FileEntry -> FileEntry) (targetPath : string)
    (file : FileEntry) : FileEntry :=
  if String.eqb (path file) targetPath then effect file
  else match children file with
       | Some cs => withChildren (Some (map (updateNode effect targetPath) cs)) file
       | None => file
       end.

Definition effectOf (m : Mutation) (file : FileEntry) : FileEntry :=
  match m with
  | ToggleExpand => withExpanded (Some (Js.falsy (expanded file))) file
  | BeginLoad => withLoading (Some true) file
  | ApplyChildren loaded => withLoading (Some false) (withChildren (Some loaded) file)
  | FailLoad => withLoading (Some false) file
  end.

(** ** Addressing nodes of a snapshot *)

(** The node reached from the roots by following child indices. *)
Fixpoint nodeAt (pos : list nat) (files : list FileEntry) : option FileEntry :=
  match pos with
  | [] => None
  | i :: rest =>
      match nth_error files i with
      | None => None
      | Some file =>
          match rest with
          | [] => Some file
          | _ :: _ =>
              match children file with
              | Some cs => nodeAt rest cs
              | None => None
              end
          end
      end
  end.

(** Some node of the subtree rooted at [file] has path [targetPath]. *)
Fixpoint occursIn (targetPath : string) (file : FileEntry) : bool :=
  String.eqb (path file) targetPath ||
  match children file with
  | Some cs => existsb (occursIn targetPath) cs
  | None => false
  end.

Definition occurs (targetPath : string) (files : list FileEntry) : bool :=
  existsb (occursIn targetPath) files.

(** Some node strictly above position [pos] has path [targetPath]. *)
Fixpoint targetAbove (targetPath : string) (pos : list nat) (files : list FileEntry) : bool :=
  match pos with
  | [] => false
  | i :: rest =>
      match nth_error files i, rest with
      | Some file, _ :: _ =>
          String.eqb (path file) targetPath ||
          match children file with
          | Some cs => targetAbove targetPath rest cs
          | None => false
          end
      | _, _ => false
      end
  end.

(** Every node the search of [toggleExpand] stops at has a boolean in its
    [expanded] property. *)
Fixpoint expandedSetAt (targetPath : string) (file : FileEntry) : bool :=
  if String.eqb (path file) targetPath then
    match expanded file with Some _ => true | None => false end
  else match children file with
       | Some cs => forallb (expandedSetAt targetPath) cs
       | None => true
       end.

(** The properties of a node other than [expanded], with the children
    reduced to their number. *)
Definition fieldsButExpanded (file : FileEntry) :=
  (name file, path file, isDirectory file, size file, permissions file,
   loading file, option_map (@length FileEntry) (children file)).

(** The properties of a node other than [loading], likewise. *)
Definition fieldsButLoading (file : FileEntry) :=
  (name file, path file, isDirectory file, size file, permissions file,
   expanded file, option_map (@length FileEntry) (children file)).

(** ** The dialog and its collaborators *)

(** What the dialog reads of its [cluster] prop. *)
Record Cluster : Type := mkCluster {
  kubeConfigPath : string;
  contextName : string
}.

(** The props and preferences the dialog closes over. *)
Record Env : Type := mkEnv {
  kubectlPath : string;
  podNs : string;
  podName : string;
  containerName : string;
  cluster : option Cluster
}.

(** A non-empty string is truthy. *)
Definition truthyString (s : string) : bool := negb (String.eqb s "").

(** [buildKubectlArgs] *)
Definition buildKubectlArgs (env : Env) (commandArgs : list string) : list string :=
  let args :=
    match cluster env with
    | Some c =>
        ((if truthyString (kubeConfigPath c) then ["--kubeconfig"; kubeConfigPath c] else []) ++
         (if truthyString (contextName c) then ["--context"; contextName c] else []))%list
    | None => []
    end in
  (args ++ commandArgs)%list.

(** The [replace] of [listFilesAtPath]: every double quote of the path is
    replaced (flag [g]) by a backslash followed by a double quote. *)
Definition safePath (targetPath : string) : string :=
  Js.replaceAll Js.DQUOTE (String Js.BACKSLASH (String Js.DQUOTE EmptyString)) targetPath.

(** The template literal of [listFilesAtPath]: the fixed text, then the
    escaped path between two double quotes. *)
Definition listCommand (targetPath : string) : string :=
  "ls -la -- " ++ String Js.DQUOTE (safePath targetPath ++ String Js.DQUOTE EmptyString).

(** The argument vector [listFilesAtPath] hands to [execKubectl]. *)
Definition listArgs (env : Env) (targetPath : string) : list string :=
  buildKubectlArgs env
    ["exec"; "-i"; "-n"; podNs env; podName env; "-c"; containerName env;
     "--"; "sh"; "-c"; listCommand targetPath].

(** What [execFile] settles with. *)
Inductive ExecResult : Type :=
| CallSuccessful (response : RawOutput)
| CallFailed (stderr : option string) (message : option string).

Definition orElse (v : option string) (fallback : string) : string :=
  match v with
  | Some s => if truthyString s then s else fallback
  | None => fallback
  end.

(** [execKubectl] after the call has settled; without a cluster it throws
    before calling [execFile] at all. *)
Definition execKubectl (env : Env) (settled : ExecResult) : result RawOutput :=
  match cluster env with
  | None => Throw (ErrorObject "Cluster not available. Ensure the cluster is connected.")
  | Some _ =>
      match settled with
      | CallSuccessful response => Ok response
      | CallFailed stderr message =>
          Throw (ErrorObject (orElse stderr (orElse message "Failed to run kubectl")))
      end
  end.

(** [listFilesAtPath] after the call has settled. *)
Definition listFilesAtPath (env : Env) (targetPath : string) (settled : ExecResult)
  : result (list FileEntry) :=
  let* output := execKubectl env settled in
  parseListOutput output targetPath.

(** The component state of [FileExplorerDialog]. *)
Record Dialog : Type := mkDialog {
  rootFiles : list FileEntry;
  dialogLoading : bool;
  error : option string
}.

(** The dialog together with its effects on the outside: every [execFile]
    call made so far (program and arguments), and the paths whose
    [loadChildren] has been started and has not settled yet. *)
Record World : Type := mkWorld {
  dialog : Dialog;
  invocations : list (string * list string);
  inFlight : list string
}.

Definition setRootFiles (f : list FileEntry -> list FileEntry) (w : World) : World :=
  {| dialog := {| rootFiles := f (rootFiles (dialog w));
                  dialogLoading := dialogLoading (dialog w);
                  error := error (dialog w) |};
     invocations := invocations w;
     inFlight := inFlight w |}.

Definition setError (e : option string) (w : World) : World :=
  {| dialog := {| rootFiles := rootFiles (dialog w);
                  dialogLoading := dialogLoading (dialog w);
                  error := e |};
     invocations := invocations w;
     inFlight := inFlight w |}.

(** [toggleExpand] *)
Definition toggleExpand (targetPath : string) (w : World) : World :=
  setRootFiles (toggleExpand_updateFiles targetPath) w.

(** [loadChildren] up to its [await]: the node is flagged, and
    [listFilesAtPath] runs as far as the [execFile] call, which is made only
    when a cluster is there. *)
Definition loadChildren_start (env : Env) (targetPath : string) (w : World) : World :=
  let w1 := setRootFiles (loadChildren_updateFiles targetPath) w in
  {| dialog := dialog w1;
     invocations :=
       match cluster env with
       | Some _ => (invocations w1 ++ [(kubectlPath env, listArgs env targetPath)])%list
       | None => invocations w1
       end;
     inFlight := (inFlight w1 ++ [targetPath])%list |}.

Fixpoint removeFirst (targetPath : string) (l : list string) : list string :=
  match l with
  | [] => []
  | x :: l' => if String.eqb x targetPath then l' else x :: removeFirst targetPath l'
  end.

(** The message the [catch] clause of [loadChildren] passes to [setError]:
    that of an [Error] instance, a fixed text for anything else. *)
Definition errorMessage (e : Thrown) : string :=
  match e with
  | ErrorObject message => message
  | OtherValue => "Failed to load directory"
  end.

(** [loadChildren] from its [await] on: the [try] branch applies the parsed
    children, the [catch] branch records the message and clears the flag. *)
Definition loadChildren_settle (env : Env) (targetPath : string) (settled : ExecResult)
    (w : World) : World :=
  let w1 :=
    match listFilesAtPath env targetPath settled with
    | Ok loaded => setRootFiles (updateFilesWithChildren targetPath loaded) w
    | Throw err =>
        setRootFiles (updateFilesOnError targetPath) (setError (Some (errorMessage err)) w)
    end in
  {| dialog := dialog w1;
     invocations := invocations w1;
     inFlight := removeFirst targetPath (inFlight w1) |}.

(** The callbacks a tree node receives. *)
Inductive Callback : Type :=
| OnLoadChildren (targetPath : string)
| OnToggleExpand (targetPath : string).

Definition isUndefined {A : Type} (v : option A) : bool :=
  match v with
  | Some _ => false
  | None => true
  end.

(** The [onClick] of the expand button of [FileTreeNode]; an array, empty
    or not, is truthy. *)
Definition expandButton_onClick (entry : FileEntry) : list Callback :=
  ((if Js.falsy (expanded entry) && isUndefined (children entry)
    then [OnLoadChildren (path entry)] else []) ++
   [OnToggleExpand (path entry)])%list.

(** Only a directory is rendered with the button. *)
Definition FileTreeNode_button (entry : FileEntry) : option (list Callback) :=
  if isDirectory entry then Some (expandButton_onClick entry) else None.

Definition runCallback (env : Env) (w : World) (cb : Callback) : World :=
  match cb with
  | OnLoadChildren targetPath => loadChildren_start env targetPath w
  | OnToggleExpand targetPath => toggleExpand targetPath w
  end.

(** A click on the expand button of the node rendered from [entry]. *)
Definition click (env : Env) (entry : FileEntry) (w : World) : World :=
  match FileTreeNode_button entry with
  | Some callbacks => fold_left (runCallback env) callbacks w
  | None => w
  end.

Definition isLoad (cb : Callback) : bool :=
  match cb with
  | OnLoadChildren _ => true
  | OnToggleExpand _ => false
  end.

Fixpoint argsEqb (a b : list string) : bool :=
  match a, b with
  | [], [] => true
  | x :: a', y :: b' => String.eqb x y && argsEqb a' b'
  | _, _ => false
  end.

(** The number of [execFile] calls made so far with the argument vector
    that lists [targetPath]. *)
Definition listingsOf (env : Env) (targetPath : string) (w : World) : nat :=
  length (filter (fun call => argsEqb (snd call) (listArgs env targetPath)) (invocations w)).

(** A click on the expand button of the node shown at position [pos]. *)
Definition clickAt (env : Env) (pos : list nat) (w : World) : World :=
  match nodeAt pos (rootFiles (dialog w)) with
  | Some entry => click env entry w
  | None => w
  end.

(** The name [parseListOutput] recovers from a line: the tokens from the
    ninth on, joined by single spaces. *)
Definition recoveredName (line : string) : string :=
  Js.join " " (Js.slice 8 (Js.splitWhiteSpace line)).

(** No line feed inside a line. *)
Fixpoint singleLine (s : string) : bool :=
  match s with
  | EmptyString => true
  | String c r => negb (Ascii.eqb c Js.LF) && singleLine r
  end.

(** ** The reader of the command: double quotes in the POSIX shell *)

(** [listFilesAtPath] hands its command to [sh -c] inside the container.
    The shell is no part of this repository; what follows is the rule of the
    POSIX Shell Command Language, section 2.2.3 (Double-Quotes), for the text
    after an opening double quote: a backslash escapes a dollar sign, a
    backquote, a double quote, a backslash and a line feed and is literal
    before anything else; a dollar sign or a backquote starts an expansion;
    an unescaped double quote ends the quoted text. *)
Module Sh.

Inductive Read : Type :=
| Literal (value rest : string)
| Expansion
| Unterminated.

Definition prepend (c : ascii) (r : Read) : Read :=
  match r with
  | Literal value rest => Literal (String c value) rest
  | other => other
  end.

Definition startsExpansion (c : ascii) : bool :=
  Ascii.eqb c "$" || Ascii.eqb c "`".

Definition escapable (c : ascii) : bool :=
  startsExpansion c || Ascii.eqb c Js.DQUOTE || Ascii.eqb c Js.BACKSLASH.

Fixpoint readDoubleQuoted (s : string) : Read :=
  match s with
  | EmptyString => Unterminated
  | String c r =>
      if Ascii.eqb c Js.DQUOTE then Literal EmptyString r
      else if startsExpansion c then Expansion
      else if Ascii.eqb c Js.BACKSLASH then
        match r with
        | EmptyString => Unterminated
        | String d r' =>
            if escapable d then prepend d (readDoubleQuoted r')
            else if Ascii.eqb d Js.LF then readDoubleQuoted r'
            else prepend c (prepend d (readDoubleQuoted r'))
        end
      else prepend c (readDoubleQuoted r)
  end.

Fixpoint stripPrefix (p s : string) : option string :=
  match p, s with
  | EmptyString, _ => Some s
  | String a p', String b s' => if Ascii.eqb a b then stripPrefix p' s' else None
  | String _ _, EmptyString => None
  end.

(** The operand the shell reads after the fixed words of the listing
    command, and what is left of the command after it. *)
Definition listOperand (command : string) : option Read :=
  match stripPrefix ("ls -la -- " ++ String Js.DQUOTE EmptyString) command with
  | Some quoted => Some (readDoubleQuoted quoted)
  | None => None
  end.

(** The characters other than the double quote that the shell treats
    specially between double quotes. *)
Definition special (c : ascii) : bool :=
  startsExpansion c || Ascii.eqb c Js.BACKSLASH.

Fixpoint plain (s : string) : bool :=
  match s with
  | EmptyString => true
  | String c r => negb (special c) && plain r
  end.

End Sh.

(** ** The superseded dialog *)

Module Legacy.

(** The [map] callback of the first [parseListOutput] of the file: the
    line is not trimmed and no name is refused.  A size that does not
    parse stays [NaN] there, which this embedding does not tell from an
    absent size. *)
Definition parseLine (basePath : string) (line : string) : result (option FileEntry) :=
  let parts := Js.splitWhiteSpace line in
  if (length parts <? 9)%nat then Ok None
  else
    let* permissions :=
      match nth_error parts 0 with
      | Some p => Ok p
      | None => Throw (ErrorObject "Cannot read properties of undefined (reading 'startsWith')")
      end in
    let size := Js.parseInt (nth_error parts 4) in
    let name := Js.join " " (Js.slice 8 parts) in
    let isDirectory := Js.startsWith permissions "d" in
    let fullPath := if String.eqb basePath "/" then "/" ++ name else basePath ++ "/" ++ name in
    Ok (Some {| name := name;
                path := fullPath;
                isDirectory := isDirectory;
                size := if isDirectory then None else size;
                permissions := Some permissions;
                expanded := Some false;
                children := if isDirectory then Some [] else None;
                loading := None |}).

Definition keepLine (line : string) : bool :=
  (0 <? String.length (Js.trim line))%nat && negb (Js.startsWith line "total").

(** Without the guard of the current parser, a value that is no string
    has no [split] method. *)
Definition parseListOutput (output : RawOutput) (basePath : string)
  : result (list FileEntry) :=
  match output with
  | NonString _ => Throw (ErrorObject "output.split is not a function")
  | StringValue s =>
      let* entries := mapM (parseLine basePath) (filter keepLine (Js.split Js.LF s)) in
      Ok (dropNull entries)
  end.

(** The command of [loadFilesAtPath], used for the root listing: the path
    goes between the double quotes as it is. *)
Definition loadFilesAtPath_command (env : Env) (targetPath : string) : string :=
  kubectlPath env ++ " exec -i -n " ++ podNs env ++ " " ++ podName env ++
  " -c " ++ containerName env ++ " -- ls -lah " ++
  String Js.DQUOTE (targetPath ++ String Js.DQUOTE " 2>&1").

(** The command of [loadChildren]: the same with the double quotes of the
    path escaped. *)
Definition loadChildren_command (env : Env) (targetPath : string) : string :=
  kubectlPath env ++ " exec -i -n " ++ podNs env ++ " " ++ podName env ++
  " -c " ++ containerName env ++ " -- ls -lah " ++
  String Js.DQUOTE (safePath targetPath ++ String Js.DQUOTE " 2>&1").

End Legacy.

(** ** Sample data *)

Definition sampleEnv : Env :=
  {| kubectlPath := "kubectl"; podNs := "default"; podName := "web-server";
     containerName := "app";
     cluster := Some {| kubeConfigPath := "/home/op/.kube/config"; contextName := "prod" |} |}.

Definition directoryNode (name path : string) (expanded : option bool)
    (children : option (list FileEntry)) : FileEntry :=
  {| name := name; path := path; isDirectory := true; size := None;
     permissions := Some "drwxr-xr-x"; expanded := expanded;
     children := children; loading := None |}.

Definition fileNode (name path : string) (size : Z) : FileEntry :=
  {| name := name; path := path; isDirectory := false; size := Some size;
     permissions := Some "-rw-r--r--"; expanded := Some false;
     children := None; loading := None |}.

Definition worldOf (files : list FileEntry) : World :=
  {| dialog := {| rootFiles := files; dialogLoading := false; error := None |};
     invocations := [];
     inFlight := [] |}.

(** The listing text of the end-to-end scenario. *)
Definition scenarioText : string :=
  "drwxr-xr-x 2 root root 4096 Jan 1 00:00 var" ++
  String Js.LF "-rw-r--r-- 1 root root 120 Jan 1 00:00 readme.txt".

(** ** The rest of the dialog *)

Definition setLoading (b : bool) (w : World) : World :=
  {| dialog := {| rootFiles := rootFiles (dialog w);
                  dialogLoading := b;
                  error := error (dialog w) |};
     invocations := invocations w;
     inFlight := inFlight w |}.

(** The message the [catch] clause of [loadRootFiles] passes to [setError]. *)
Definition rootErrorMessage (e : Thrown) : string :=
  match e with
  | ErrorObject message => message
  | OtherValue => "Failed to load files"
  end.

(** [loadRootFiles] up to its [await]: the dialog is flagged as loading, the
    error is cleared, and [listFilesAtPath] runs for the root as far as the
    [execFile] call. *)
Definition loadRootFiles_start (env : Env) (w : World) : World :=
  let w1 := setError None (setLoading true w) in
  {| dialog := dialog w1;
     invocations :=
       match cluster env with
       | Some _ => (invocations w1 ++ [(kubectlPath env, listArgs env "/")])%list
       | None => invocations w1
       end;
     inFlight := inFlight w1 |}.

(** [loadRootFiles] from its [await] on: the [try] branch installs the
    parsed entries, the [catch] branch records the message and empties the
    tree, and [finally] clears the flag. *)
Definition loadRootFiles_settle (env : Env) (settled : ExecResult) (w : World) : World :=
  let w1 :=
    match listFilesAtPath env "/" settled with
    | Ok files => setRootFiles (fun _ => files) w
    | Throw err =>
        setRootFiles (fun _ => []) (setError (Some (rootErrorMessage err)) w)
    end in
  setLoading false w1.

(** The state [FileExplorerDialog] is mounted with. *)
Definition initialWorld : World := worldOf [].

Definition SLASH : ascii := "/"%char.

(** [parts.pop()]: the last element, [undefined] for an empty array. *)
Fixpoint pop (parts : list string) : option string :=
  match parts with
  | [] => None
  | [x] => Some x
  | _ :: rest => pop rest
  end.

(** The [fileName] of [downloadFile]: the last segment of the path, or a
    fixed name when that segment is empty. *)
Definition downloadFileName (filePath : string) : string :=
  orElse (pop (Js.split SLASH filePath)) "download".

(** The [downloadDir] of [downloadFile]; [home] is [process.env.HOME]. *)
Definition downloadDir (home : option string) : string :=
  orElse home "~" ++ "/Downloads".

(** The argument vector [downloadFile] hands to [execKubectl]. *)
Definition downloadArgs (env : Env) (home : option string) (filePath : string)
  : list string :=
  buildKubectlArgs env
    ["cp"; "-c"; containerName env;
     podNs env ++ "/" ++ podName env ++ ":" ++ filePath;
     downloadDir home ++ "/" ++ downloadFileName filePath].

(** The mutators that leave the children of the target in place. *)
Definition keepsChildren (m : Mutation) : bool :=
  match m with
  | ApplyChildren _ => false
  | _ => true
  end.

(** ** What the tree shows *)

Definition truthy (v : option bool) : bool := negb (Js.falsy v).

(** The text of the expand button. *)
Inductive Glyph : Type :=
| Hourglass
| ArrowDown
| ArrowRight.

(** What [entry.size && ...] renders: nothing for an undefined size, the
    number itself for zero, and the size in kilobytes otherwise. *)
Inductive SizeCell : Type :=
| NoSizeCell
| ZeroText
| Kilobytes (bytes : Z).

(** One row of the tree. *)
Record Row : Type := mkRow {
  rowLevel : nat;
  rowKey : string;
  rowName : string;
  rowButton : option Glyph;
  rowSize : SizeCell;
  rowDownload : bool
}.

Definition glyphOf (entry : FileEntry) : Glyph :=
  if truthy (loading entry) then Hourglass
  else if truthy (expanded entry) then ArrowDown
  else ArrowRight.

Definition sizeCellOf (entry : FileEntry) : SizeCell :=
  match size entry with
  | None => NoSizeCell
  | Some 0%Z => ZeroText
  | Some bytes => Kilobytes bytes
  end.

Definition rowOf (level : nat) (entry : FileEntry) : Row :=
  {| rowLevel := level;
     rowKey := path entry;
     rowName := name entry;
     rowButton := if isDirectory entry then Some (glyphOf entry) else None;
     rowSize := sizeCellOf entry;
     rowDownload := negb (isDirectory entry) |}.

Definition isEmpty {A : Type} (l : list A) : bool :=
  match l with
  | [] => true
  | _ :: _ => false
  end.

(** The rows [FileTreeNode] renders for an entry: its own row, and below
    it the rows of its children when it is expanded and has any. *)
Fixpoint FileTreeNode (level : nat) (entry : FileEntry) : list Row :=
  rowOf level entry ::
  match children entry with
  | Some cs =>
      if truthy (expanded entry) && negb (isEmpty cs)
      then flat_map (FileTreeNode (S level)) cs
      else []
  | None => []
  end.



(** ** The runs of the dialog *)

(** [downloadFile] up to its [await]: [execKubectl] is called with the
    copy arguments and calls [execFile] when a cluster is there.  What comes
    after the [await] shows an alert and changes no state of the dialog. *)
Definition downloadFile_start (env : Env) (home : option string) (filePath : string)
    (w : World) : World :=
  {| dialog := dialog w;
     invocations :=
       match cluster env with
       | Some _ => (invocations w ++ [(kubectlPath env, downloadArgs env home filePath)])%list
       | None => invocations w
       end;
     inFlight := inFlight w |}.

(** One event in the life of the dialog: the mount effect starts a root
    listing; a root listing settles; the expand button of a node is clicked;
    the Download button of a file is clicked; a load of children that is in
    flight settles.  Root listings are let to settle at any time and any
    node of the tree may be clicked, shown or not, so that every order of
    events of the running dialog is covered.  [home] is [process.env.HOME]. *)
Inductive dialogStep (env : Env) (home : option string) : World -> World -> Prop :=
| step_mount (w : World) :
    dialogStep env home w (loadRootFiles_start env w)
| step_root_settled (w : World) (settled : ExecResult) :
    dialogStep env home w (loadRootFiles_settle env settled w)
| step_click (w : World) (pos : list nat) :
    dialogStep env home w (clickAt env pos w)
| step_download (w : World) (pos : list nat) (entry : FileEntry) :
    nodeAt pos (rootFiles (dialog w)) = Some entry ->
    isDirectory entry = false ->
    dialogStep env home w (downloadFile_start env home (path entry) w)
| step_children_settled (w : World) (targetPath : string) (settled : ExecResult) :
    In targetPath (inFlight w) ->
    dialogStep env home w (loadChildren_settle env targetPath settled w).

Inductive reachable (env : Env) (home : option string) : World -> Prop :=
| reachable_initial : reachable env home initialWorld
| reachable_step (w w' : World) :
    reachable env home w -> dialogStep env home w w' -> reachable env home w'.

(** An entry as the parser leaves it, but for [expanded]. *)
Definition neverLoaded (e : FileEntry) : Prop :=
  children e = (if isDirectory e then Some [] else None) /\
  loading e = None /\
  exists b, expanded e = Some b.

(** An [execFile] call that lists the root, or one that copies a file. *)
Definition rootListingOrCopy (env : Env) (home : option string)
    (call : string * list string) : Prop :=
  call = (kubectlPath env, listArgs env "/") \/
  exists filePath, call = (kubectlPath env, downloadArgs env home filePath).

(** What holds in every state the dialog can be in. *)
Definition neverListsChildren (env : Env) (home : option string) (w : World) : Prop :=
  inFlight w = [] /\
  Forall (rootListingOrCopy env home) (invocations w) /\
  Forall neverLoaded (rootFiles (dialog w)).

(** A row without the text of its button. *)
Definition rowShape (r : Row) :=
  (rowLevel r, rowKey r, rowName r, rowSize r, rowDownload r, isUndefined (rowButton r)).

(** ** Lines made of tokens *)

Fixpoint allWhite (s : string) : bool :=
  match s with
  | EmptyString => true
  | String c r => Js.isWhiteSpace c && allWhite r
  end.

Fixpoint noWhite (s : string) : bool :=
  match s with
  | EmptyString => true
  | String c r => negb (Js.isWhiteSpace c) && noWhite r
  end.

(** A non-empty string without white space. *)
Definition isToken (s : string) : bool := negb (String.eqb s "") && noWhite s.

(** A non-empty string of white space. *)
Definition isSeparator (s : string) : bool := negb (String.eqb s "") && allWhite s.

(** A first token followed by separator and token pairs. *)
Fixpoint weave (first : string) (rest : list (string * string)) : string :=
  match rest with
  | [] => first
  | (sep, tok) :: rest' => first ++ sep ++ weave tok rest'
  end.

Definition wellFormed (first : string) (rest : list (string * string)) : bool :=
  isToken first && forallb (fun p => isSeparator (fst p) && isToken (snd p)) rest.

(** The last character of a string is white space. *)
Fixpoint lastIsWhite (s : string) : bool :=
  match s with
  | EmptyString => false
  | String c r =>
      match r with
      | EmptyString => Js.isWhiteSpace c
      | String _ _ => lastIsWhite r
      end
  end.

Definition nonEmpty (s : string) : Prop := s <> "".

(** No double quote in a string. *)
Fixpoint quoteFree (s : string) : bool :=
  match s with
  | EmptyString => true
  | String c r => negb (Ascii.eqb c Js.DQUOTE) && quoteFree r
  end.

(** No slash in a string. *)
Fixpoint slashFree (s : string) : bool :=
  match s with
  | EmptyString => true
  | String c r => negb (Ascii.eqb c SLASH) && slashFree r
  end.

(** ** Auxiliary definitions of the proofs *)

Definition lineFeed : string := String Js.LF EmptyString.

(** The entry a line yields, read off [parseLine]. *)
Definition lineEntry (basePath line : string) : option FileEntry :=
  match parseLine basePath line with
  | Ok r => r
  | Throw _ => None
  end.

(** What one raw line adds to the result. *)
Definition contribution (basePath line : string) : list FileEntry :=
  if keepLine (Js.trim line) then
    match lineEntry basePath (Js.trim line) with
    | Some e => [e]
    | None => []
    end
  else [].

(** Induction over trees of entries. *)

Definition allChildren (P : FileEntry -> Prop) (ch : option (list FileEntry)) : Prop :=
  match ch with
  | Some cs => Forall P cs
  | None => True
  end.

Section FileEntryInduction.

Variable P : FileEntry -> Prop.
Hypothesis step : forall file, allChildren P (children file) -> P file.

Fixpoint FileEntry_tree_ind (file : FileEntry) : P file :=
  step file
    (match file as f return allChildren P (children f) with
     | mkFileEntry _ _ _ _ _ _ ch _ =>
         match ch return allChildren P ch with
         | Some cs =>
             (fix all (l : list FileEntry) : Forall P l :=
                match l with
                | [] => Forall_nil P
                | x :: l' => Forall_cons x (FileEntry_tree_ind x) (all l')
                end) cs
         | None => I
         end
     end).

End FileEntryInduction.

(** * Properties *)

(** ** Strings and lines *)

Lemma split_nonempty (sep : ascii) (s : string) : Js.split sep s <> [].
Proof.
  destruct s as [|c r]; simpl; [discriminate|].
  destruct (Ascii.eqb c sep); [discriminate|].
  destruct (Js.split sep r); discriminate.
Qed.

Lemma split_app (sep : ascii) (a b : string) :
  Js.split sep (a ++ String sep b) = (Js.split sep a ++ Js.split sep b)%list.
Proof.
  induction a as [|c r IH]; simpl.
  - now rewrite Ascii.eqb_refl.
  - destruct (Ascii.eqb c sep); [now rewrite IH|].
    rewrite IH. pose proof (split_nonempty sep r) as Hne.
    destruct (Js.split sep r); [contradiction|reflexivity].
Qed.

Lemma split_singleLine (s : string) :
  singleLine s = true -> Js.split Js.LF s = [s].
Proof.
  induction s as [|c r IH]; simpl; [reflexivity|].
  intros H. apply andb_prop in H as [Hc Hr].
  apply negb_true_iff in Hc. rewrite Hc, (IH Hr). reflexivity.
Qed.

Lemma split_join (lines : list string) :
  lines <> [] -> forallb singleLine lines = true ->
  Js.split Js.LF (Js.join lineFeed lines) = lines.
Proof.
  induction lines as [|x l IH]; [congruence|].
  intros _ H. simpl in H. apply andb_prop in H as [Hx Hl].
  destruct l as [|y l'].
  - simpl. now apply split_singleLine.
  - change (Js.join lineFeed (x :: y :: l'))
      with (x ++ String Js.LF (Js.join lineFeed (y :: l'))).
    rewrite split_app, (split_singleLine x Hx), IH; [reflexivity|discriminate|assumption].
Qed.

Lemma join_empty (lines : list string) :
  Js.join lineFeed lines = "" -> lines = [] \/ lines = [""].
Proof.
  destruct lines as [|x [|y l]]; simpl; auto.
  - intros ->. now right.
  - destruct x; discriminate.
Qed.

(** ** The parser does not throw *)

Lemma parseLine_Ok (basePath line : string) :
  parseLine basePath line = Ok (lineEntry basePath line).
Proof.
  unfold lineEntry, parseLine.
  destruct (length (Js.splitWhiteSpace line) <? 9)%nat eqn:Hlen; [reflexivity|].
  apply Nat.ltb_ge in Hlen.
  destruct (Js.splitWhiteSpace line) as [|p parts]; [simpl in Hlen; lia|].
  cbn [nth_error bind].
  match goal with |- context [if ?b then Ok None else _] => destruct b end; reflexivity.
Qed.

Lemma mapM_Ok {A B : Type} (f : A -> result B) (g : A -> B) (l : list A) :
  (forall a, f a = Ok (g a)) -> mapM f l = Ok (map g l).
Proof.
  intros H. induction l as [|a l IH]; simpl; [reflexivity|].
  now rewrite H, IH.
Qed.

Lemma dropNull_app {A : Type} (l1 l2 : list (option A)) :
  dropNull (l1 ++ l2) = (dropNull l1 ++ dropNull l2)%list.
Proof.
  induction l1 as [|[a|] l1 IH]; simpl; [reflexivity| |assumption].
  now rewrite IH.
Qed.

Lemma parseLines_flat_map (basePath : string) (lines : list string) :
  parseLines basePath lines = Ok (flat_map (contribution basePath) lines).
Proof.
  unfold parseLines.
  rewrite (mapM_Ok _ _ _ (parseLine_Ok basePath)). cbn [bind]. f_equal.
  induction lines as [|x l IH]; [reflexivity|].
  cbn [map filter flat_map]. unfold contribution at 1.
  destruct (keepLine (Js.trim x)); [|exact IH].
  cbn [map dropNull].
  destruct (lineEntry basePath (Js.trim x)); cbn [dropNull app]; now rewrite IH.
Qed.

Lemma parse_join (basePath : string) (lines : list string) :
  forallb singleLine lines = true ->
  parseListOutput (StringValue (Js.join lineFeed lines)) basePath =
  parseLines basePath lines.
Proof.
  intros Hl. destruct (Js.join lineFeed lines) as [|c r] eqn:Hj.
  - destruct (join_empty _ Hj) as [-> | ->]; reflexivity.
  - cbn [parseListOutput]. rewrite <- Hj, split_join; [reflexivity| |assumption].
    intros ->. discriminate.
Qed.

Lemma parseListOutput_Ok (output : RawOutput) (basePath : string) :
  exists entries, parseListOutput output basePath = Ok entries /\
    exists lines, entries = flat_map (contribution basePath) lines.
Proof.
  destruct output as [[|c r]|t]; cbn [parseListOutput].
  - exists []. split; [reflexivity|]. now exists [].
  - rewrite parseLines_flat_map. eexists. split; [reflexivity|]. eexists. reflexivity.
  - exists []. split; [reflexivity|]. now exists [].
Qed.


(** Every entry of the result comes from [parseLine] applied to some line. *)
Lemma contribution_In (basePath line : string) (e : FileEntry) :
  In e (contribution basePath line) ->
  parseLine basePath (Js.trim line) = Ok (Some e).
Proof.
  unfold contribution. destruct (keepLine (Js.trim line)); [|contradiction].
  rewrite parseLine_Ok.
  destruct (lineEntry basePath (Js.trim line)); simpl; [|contradiction].
  intros [->|[]]. reflexivity.
Qed.

Lemma parsed_entries_from_lines (output : RawOutput) (basePath : string)
    (entries : list FileEntry) (e : FileEntry) :
  parseListOutput output basePath = Ok entries -> In e entries ->
  exists line, parseLine basePath line = Ok (Some e).
Proof.
  intros H Hin.
  destruct (parseListOutput_Ok output basePath) as (entries' & H' & lines & ->).
  rewrite H in H'. injection H' as ->.
  apply in_flat_map in Hin as (line & _ & Hin).
  eauto using contribution_In.
Qed.

(** The shape of every entry [parseLine] builds. *)
Lemma parseLine_Some (basePath line : string) (e : FileEntry) :
  parseLine basePath line = Ok (Some e) ->
  name e = recoveredName line /\
  name e <> "." /\ name e <> ".." /\
  path e = (if String.eqb basePath "/" then "/" ++ name e else basePath ++ "/" ++ name e) /\
  children e = (if isDirectory e then Some [] else None) /\
  (isDirectory e = true -> size e = None) /\
  expanded e = Some false /\
  loading e = None.
Proof.
  unfold parseLine, recoveredName.
  destruct (length (Js.splitWhiteSpace line) <? 9)%nat; [discriminate|].
  destruct (nth_error (Js.splitWhiteSpace line) 0) as [p|]; [|discriminate].
  cbn [bind].
  set (n := Js.join " " (Js.slice 8 (Js.splitWhiteSpace line))).
  destruct (String.eqb n ".") eqn:H1; [discriminate|].
  destruct (String.eqb n "..") eqn:H2; [discriminate|].
  cbn [orb]. intros H. injection H as <-. cbn.
  apply String.eqb_neq in H1, H2.
  repeat split; auto.
  intros ->. reflexivity.
Qed.

(** C4. Parsing the two-line listing of the end-to-end scenario with parent
    path [/] yields exactly two entries: the directory [var] at [/var]
    without a size, and the file [readme.txt] at [/readme.txt] of size 120. *)
Theorem end_to_end_scenario :
  parseListOutput (StringValue scenarioText) "/" =
  Ok [ {| name := "var"; path := "/var"; isDirectory := true; size := None;
          permissions := Some "drwxr-xr-x"; expanded := Some false;
          children := Some []; loading := None |};
       {| name := "readme.txt"; path := "/readme.txt"; isDirectory := false;
          size := Some 120%Z; permissions := Some "-rw-r--r--";
          expanded := Some false; children := None; loading := None |} ].
Proof. vm_compute. reflexivity. Qed.



(** C6. No entry of the parser's output is named [.] or [..], whatever the
    input; a line whose recovered name is [.] or [..] yields no entry. *)
Theorem dotted_entries_excluded :
  (forall output basePath,
      exists entries, parseListOutput output basePath = Ok entries /\
        Forall (fun e => name e <> "." /\ name e <> "..") entries) /\
  (forall basePath line,
      recoveredName line = "." \/ recoveredName line = ".." ->
      parseLine basePath line = Ok None).
Proof.
  split.
  - intros output basePath.
    destruct (parseListOutput_Ok output basePath) as (entries & H & _).
    exists entries. split; [assumption|].
    apply Forall_forall. intros e Hin.
    destruct (parsed_entries_from_lines _ _ _ _ H Hin) as (line & Hline).
    apply parseLine_Some in Hline. tauto.
  - intros basePath line Hname.
    rewrite parseLine_Ok. f_equal.
    destruct (lineEntry basePath line) as [e|] eqn:He; [|reflexivity].
    assert (Hline : parseLine basePath line = Ok (Some e)).
    { rewrite parseLine_Ok. now f_equal. }
    apply parseLine_Some in Hline as (Hn & H1 & H2 & _).
    rewrite Hn in H1, H2. tauto.
Qed.

Lemma dotted_entries_excluded_witness :
  parseLine "/var" "drwxr-xr-x 2 root root 4096 Jan 1 00:00 .." = Ok None.
Proof.
  apply (proj2 dotted_entries_excluded "/var" "drwxr-xr-x 2 root root 4096 Jan 1 00:00 ..").
  right. reflexivity.
Defined.

(** C9. Every entry the parser produces for a directory carries the empty
    sequence as its children, never [undefined], and every entry it produces
    for a file carries no children. *)
Theorem parsed_children_by_kind :
  forall output basePath,
    exists entries, parseListOutput output basePath = Ok entries /\
      Forall (fun e => children e = if isDirectory e then Some [] else None) entries.
Proof.
  intros output basePath.
  destruct (parseListOutput_Ok output basePath) as (entries & H & _).
  exists entries. split; [assumption|].
  apply Forall_forall. intros e Hin.
  destruct (parsed_entries_from_lines _ _ _ _ H Hin) as (line & Hline).
  apply parseLine_Some in Hline. tauto.
Qed.

Lemma withChildren_same (file : FileEntry) (cs : list FileEntry) :
  children file = Some cs -> withChildren (Some cs) file = file.
Proof. destruct file; simpl; intros ->; reflexivity. Qed.

Lemma map_id_Forall {A : Type} (f : A -> A) (l : list A) :
  Forall (fun x => f x = x) l -> map f l = l.
Proof. induction 1; simpl; congruence. Qed.

(** ** The shared traversal *)

Section Traversal.

Variable effect : FileEntry -> FileEntry.
Variable targetPath : string.

Let visit := updateNode effect targetPath.

Lemma updateNode_unfold (file : FileEntry) :
  visit file =
  if String.eqb (path file) targetPath then effect file
  else match children file with
       | Some cs => withChildren (Some (map visit cs)) file
       | None => file
       end.
Proof. destruct file; reflexivity. Qed.

(** A subtree that holds no node with the target path is rebuilt equal. *)
Lemma updateNode_absent (file : FileEntry) :
  occursIn targetPath file = false -> visit file = file.
Proof.
  induction file as [file IH] using FileEntry_tree_ind.
  intros H. rewrite updateNode_unfold.
  destruct file as [n p d s pm ex ch ld]; cbn in *.
  apply orb_false_elim in H as [Hp Hc]. rewrite Hp.
  destruct ch as [cs|]; [|reflexivity].
  unfold withChildren, allChildren in *; cbn. do 2 f_equal.
  apply map_id_Forall.
  rewrite Forall_forall in *. intros x Hx. apply IH; [assumption|].
  destruct (occursIn targetPath x) eqn:Hox; [|reflexivity].
  rewrite <- Hc. symmetry. apply existsb_exists. eauto.
Qed.

Lemma updateTree_absent (files : list FileEntry) :
  occurs targetPath files = false -> map visit files = files.
Proof.
  intros H. apply map_id_Forall, Forall_forall. intros x Hx.
  apply updateNode_absent.
  destruct (occursIn targetPath x) eqn:Hox; [|reflexivity].
  rewrite <- H. symmetry. apply existsb_exists. eauto.
Qed.

(** Where no node above a position has the target path, the search reaches
    the position, and the node there is the visited one. *)
Lemma nodeAt_reached (pos : list nat) :
  forall files file,
    nodeAt pos files = Some file ->
    targetAbove targetPath pos files = false ->
    nodeAt pos (map visit files) = Some (visit file).
Proof.
  induction pos as [|i rest IH]; intros files file Hn Ha; [discriminate|].
  cbn [nodeAt targetAbove] in *. rewrite nth_error_map.
  destruct (nth_error files i) as [f|]; [|discriminate]. cbn [option_map].
  destruct rest as [|j rest'].
  - now injection Hn as ->.
  - apply orb_false_elim in Ha as [Hp Hc].
    rewrite updateNode_unfold, Hp.
    destruct (children f) as [cs|] eqn:Hch; [|discriminate].
    cbn [children withChildren]. now apply IH.
Qed.

(** When the effect keeps the children, whatever hangs below a node with
    the target path is left as it is. *)
Hypothesis effect_children : forall file, children (effect file) = children file.

Lemma nodeAt_sheltered (pos : list nat) :
  forall files file,
    nodeAt pos files = Some file ->
    targetAbove targetPath pos files = true ->
    nodeAt pos (map visit files) = Some file.
Proof.
  induction pos as [|i rest IH]; intros files file Hn Ha; [discriminate|].
  cbn [nodeAt targetAbove] in *. rewrite nth_error_map.
  destruct (nth_error files i) as [f|]; [|discriminate]. cbn [option_map].
  destruct rest as [|j rest']; [discriminate|].
  rewrite updateNode_unfold.
  destruct (children f) as [cs|] eqn:Hch; [|discriminate].
  destruct (String.eqb (path f) targetPath).
  - now rewrite effect_children, Hch.
  - cbn [children withChildren]. now apply IH.
Qed.

(** With such an effect the tree keeps its shape. *)
Lemma nodeAt_origin (pos : list nat) :
  forall files file',
    nodeAt pos (map visit files) = Some file' ->
    exists file, nodeAt pos files = Some file.
Proof.
  induction pos as [|i rest IH]; intros files file' Hn; [discriminate|].
  cbn [nodeAt] in *. rewrite nth_error_map in Hn.
  destruct (nth_error files i) as [f|]; [|discriminate]. cbn [option_map] in Hn.
  destruct rest as [|j rest']; [eauto|].
  rewrite updateNode_unfold in Hn.
  destruct (String.eqb (path f) targetPath).
  - rewrite effect_children in Hn.
    destruct (children f) as [cs|]; [eauto|discriminate].
  - destruct (children f) as [cs|] eqn:Hch.
    + cbn [children withChildren] in Hn. eauto.
    + now rewrite Hch in Hn.
Qed.

End Traversal.

(** The four closures are instances of the traversal. *)
Lemma mutate_traversal (m : Mutation) (targetPath : string) (files : list FileEntry) :
  mutate m targetPath files = map (updateNode (effectOf m) targetPath) files.
Proof.
  destruct m; cbn [mutate];
    unfold toggleExpand_updateFiles, loadChildren_updateFiles,
           updateFilesWithChildren, updateFilesOnError;
    apply map_ext_Forall, Forall_forall; intros x _;
    induction x as [file IH] using FileEntry_tree_ind;
    destruct file as [n p d s pm ex ch ld]; cbn in *;
    (destruct (String.eqb p targetPath); [reflexivity|]);
    (destruct ch as [cs|]; [|reflexivity]);
    unfold withChildren, allChildren in *; cbn; do 2 f_equal;
    now apply map_ext_Forall.
Qed.

Lemma effect_keeps_children (m : Mutation) :
  (forall loaded, m <> ApplyChildren loaded) ->
  forall file, children (effectOf m file) = children file.
Proof.
  intros H file. destruct m; try reflexivity. now elim (H loaded).
Qed.

(** ** Frame of the mutators *)

(** C7, as amended. A mutator applied with a path that no node of the
    snapshot has returns a snapshot equal to its input. When the path
    matches, every node that neither has the target path nor lies above a
    node that has it is left unchanged at its position, for [ApplyChildren]
    provided that it does not lie below a node with the target path either:
    that mutator replaces the children of the target outright. *)
Theorem mutation_frame (m : Mutation) (targetPath : string) (files : list FileEntry) :
  (occurs targetPath files = false -> mutate m targetPath files = files) /\
  (forall pos file,
      nodeAt pos files = Some file ->
      occursIn targetPath file = false ->
      targetAbove targetPath pos files = false \/ (forall loaded, m <> ApplyChildren loaded) ->
      nodeAt pos (mutate m targetPath files) = Some file).
Proof.
  rewrite mutate_traversal. split.
  - apply updateTree_absent.
  - intros pos file Hn Hfree Hcase.
    destruct (targetAbove targetPath pos files) eqn:Ha.
    + destruct Hcase as [Hcase|Hcase]; [discriminate|].
      now apply nodeAt_sheltered; [apply effect_keeps_children| |].
    + rewrite (nodeAt_reached _ _ _ _ _ Hn Ha). f_equal.
      now apply updateNode_absent.
Qed.

Lemma mutation_frame_witness :
  mutate (ApplyChildren [fileNode "syslog" "/var/log/syslog" 2048]) "/var/log"
    [directoryNode "etc" "/etc" (Some false) (Some [fileNode "passwd" "/etc/passwd" 1024])] =
  [directoryNode "etc" "/etc" (Some false) (Some [fileNode "passwd" "/etc/passwd" 1024])] /\
  nodeAt [0; 0]
    (mutate FailLoad "/var"
       [directoryNode "var" "/var" (Some true) (Some [fileNode "a.txt" "/var/a.txt" 1]);
        fileNode "readme.txt" "/readme.txt" 120]) =
  Some (fileNode "a.txt" "/var/a.txt" 1).
Proof.
  split.
  - apply (proj1 (mutation_frame
                    (ApplyChildren [fileNode "syslog" "/var/log/syslog" 2048]) "/var/log"
                    [directoryNode "etc" "/etc" (Some false)
                       (Some [fileNode "passwd" "/etc/passwd" 1024])])).
    reflexivity.
  - apply (proj2 (mutation_frame FailLoad "/var"
                    [directoryNode "var" "/var" (Some true) (Some [fileNode "a.txt" "/var/a.txt" 1]);
                     fileNode "readme.txt" "/readme.txt" 120])
             [0; 0] (fileNode "a.txt" "/var/a.txt" 1)).
    + reflexivity.
    + reflexivity.
    + right. discriminate.
Defined.

(** C7 as stated fails for [ApplyChildren]: a node below the target has
    another path and is not above the target, and it is gone afterwards. *)
Lemma apply_children_drops_descendants :
  let files := [directoryNode "a" "/a" (Some true) (Some [fileNode "x" "/a/x" 7])] in
  nodeAt [0; 0] files = Some (fileNode "x" "/a/x" 7) /\
  occursIn "/a" (fileNode "x" "/a/x" 7) = false /\
  nodeAt [0; 0] (mutate (ApplyChildren []) "/a" files) = None /\
  ~ (forall m targetPath files pos file,
        nodeAt pos files = Some file ->
        occursIn targetPath file = false ->
        nodeAt pos (mutate m targetPath files) = Some file).
Proof.
  cbv zeta. repeat split.
  intros H.
  specialize (H (ApplyChildren []) "/a"
                [directoryNode "a" "/a" (Some true) (Some [fileNode "x" "/a/x" 7])]
                [0; 0] (fileNode "x" "/a/x" 7) eq_refl eq_refl).
  discriminate H.
Qed.

(** ** Toggling *)

Lemma toggle_twice_file (targetPath : string) (file : FileEntry) :
  expandedSetAt targetPath file = true ->
  toggleExpand_file targetPath (toggleExpand_file targetPath file) = file.
Proof.
  induction file as [file IH] using FileEntry_tree_ind.
  destruct file as [n p d s pm ex ch ld]; cbn in *.
  destruct (String.eqb p targetPath) eqn:Hp; unfold withExpanded; cbn; rewrite ?Hp.
  - destruct ex as [[|]|]; [reflexivity|reflexivity|discriminate].
  - destruct ch as [cs|]; unfold withChildren; cbn; rewrite ?Hp; [|reflexivity].
    intros Hall. unfold withChildren, allChildren in *; cbn. do 2 f_equal.
    rewrite map_map. apply map_id_Forall.
    rewrite Forall_forall in *. rewrite forallb_forall in Hall. auto.
Qed.

Lemma toggle_twice_file_inv (targetPath : string) (file : FileEntry) :
  toggleExpand_file targetPath (toggleExpand_file targetPath file) = file ->
  expandedSetAt targetPath file = true.
Proof.
  induction file as [file IH] using FileEntry_tree_ind.
  destruct file as [n p d s pm ex ch ld]; cbn in *.
  destruct (String.eqb p targetPath) eqn:Hp; unfold withExpanded; cbn; rewrite ?Hp.
  - destruct ex; [reflexivity|discriminate].
  - destruct ch as [cs|]; unfold withChildren; cbn; rewrite ?Hp; [|reflexivity].
    unfold withChildren, allChildren in *; cbn. intros H. injection H as H.
    rewrite map_map in H. apply forallb_forall. intros x Hx.
    rewrite Forall_forall in IH. apply IH; [assumption|].
    clear IH. induction cs as [|y cs IHcs]; [contradiction|].
    cbn in H. injection H as Hy Hcs. destruct Hx as [->|Hx]; auto.
Qed.

Lemma toggled_fields (targetPath : string) (file : FileEntry) :
  let file' := updateNode (effectOf ToggleExpand) targetPath file in
  fieldsButExpanded file' = fieldsButExpanded file /\
  (String.eqb (path file) targetPath = false -> expanded file' = expanded file).
Proof.
  cbv zeta. rewrite updateNode_unfold.
  destruct file as [n p d s pm ex ch ld]; cbn.
  destruct (String.eqb p targetPath); [split; [reflexivity|discriminate]|].
  destruct ch as [cs|]; cbn; [|split; reflexivity].
  unfold fieldsButExpanded; cbn. now rewrite length_map.
Qed.

(** C10, as amended. When every node the search stops at holds a boolean
    in [expanded], as every node built by the parser does, toggling the same
    path twice gives back the snapshot. On every snapshot, with or without
    that condition, one application keeps the shape of the tree and every
    property of every node other than [expanded], and keeps [expanded] too
    where the path is not the target. *)
Theorem toggle_twice (targetPath : string) (files : list FileEntry) :
  (forallb (expandedSetAt targetPath) files = true ->
   toggleExpand_updateFiles targetPath (toggleExpand_updateFiles targetPath files) = files) /\
  (forall pos file,
      nodeAt pos files = Some file ->
      exists file',
        nodeAt pos (toggleExpand_updateFiles targetPath files) = Some file' /\
        fieldsButExpanded file' = fieldsButExpanded file /\
        (String.eqb (path file) targetPath = false -> expanded file' = expanded file)) /\
  (forall pos file',
      nodeAt pos (toggleExpand_updateFiles targetPath files) = Some file' ->
      exists file, nodeAt pos files = Some file).
Proof.
  split; [|split].
  - intros Hset.
    unfold toggleExpand_updateFiles. rewrite map_map. apply map_id_Forall.
    apply Forall_forall. intros x Hx. apply toggle_twice_file.
    rewrite forallb_forall in Hset. auto.
  - intros pos file Hn.
    change (toggleExpand_updateFiles targetPath files)
      with (mutate ToggleExpand targetPath files).
    rewrite mutate_traversal.
    destruct (targetAbove targetPath pos files) eqn:Ha.
    + exists file. split; [|auto].
      apply nodeAt_sheltered; [reflexivity|assumption|assumption].
    + exists (updateNode (effectOf ToggleExpand) targetPath file).
      split; [exact (nodeAt_reached _ _ _ _ _ Hn Ha)|]. apply toggled_fields.
  - intros pos file'.
    change (toggleExpand_updateFiles targetPath files)
      with (mutate ToggleExpand targetPath files).
    rewrite mutate_traversal. apply nodeAt_origin. reflexivity.
Qed.

Lemma toggle_twice_witness :
  let files := [directoryNode "var" "/var" (Some false)
                  (Some [directoryNode "log" "/var/log" (Some true) (Some [])])] in
  toggleExpand_updateFiles "/var/log" (toggleExpand_updateFiles "/var/log" files) = files.
Proof.
  cbv zeta.
  apply (proj1 (toggle_twice "/var/log"
           [directoryNode "var" "/var" (Some false)
              (Some [directoryNode "log" "/var/log" (Some true) (Some [])])])).
  reflexivity.
Defined.

(** C10 as stated fails on an entry without the optional [expanded]
    property: the first toggle stores [true], the second [false]. *)
Lemma toggle_twice_normalises_undefined :
  let files := [directoryNode "var" "/var" None (Some [])] in
  toggleExpand_updateFiles "/var" (toggleExpand_updateFiles "/var" files) =
    [directoryNode "var" "/var" (Some false) (Some [])] /\
  toggleExpand_updateFiles "/var" (toggleExpand_updateFiles "/var" files) <> files.
Proof.
  cbv zeta. split; [reflexivity|]. cbn. discriminate.
Qed.

(** Toggling twice gives the snapshot back exactly under that condition. *)
Lemma toggle_twice_iff (targetPath : string) (files : list FileEntry) :
  toggleExpand_updateFiles targetPath (toggleExpand_updateFiles targetPath files) = files <->
  forallb (expandedSetAt targetPath) files = true.
Proof.
  split.
  - unfold toggleExpand_updateFiles. rewrite map_map. intros H.
    apply forallb_forall. intros x Hx. apply toggle_twice_file_inv.
    induction files as [|y l IHl]; [contradiction|].
    cbn in H. injection H as Hy Hl. destruct Hx as [->|Hx]; auto.
  - intros H. unfold toggleExpand_updateFiles. rewrite map_map.
    apply map_id_Forall, Forall_forall. intros x Hx. apply toggle_twice_file.
    rewrite forallb_forall in H. auto.
Qed.

(** ** The expand button *)

(** C1. On a directory node shown collapsed, one click on the expand button
    calls [onLoadChildren] exactly once, with the path of the node, when
    [children] is undefined, and not at all when children are present; so a
    load is triggered exactly when [children] is undefined at the click. *)
Theorem expand_loads_iff_never_loaded (entry : FileEntry)
    (Hdir : isDirectory entry = true)
    (Hcollapsed : Js.falsy (expanded entry) = true) :
  exists callbacks,
    FileTreeNode_button entry = Some callbacks /\
    filter isLoad callbacks =
      (if isUndefined (children entry) then [OnLoadChildren (path entry)] else []) /\
    (In (OnLoadChildren (path entry)) callbacks <-> children entry = None) /\
    (forall env w,
        invocations (click env entry w) =
          (invocations w ++
           (if isUndefined (children entry) then
              match cluster env with
              | Some _ => [(kubectlPath env, listArgs env (path entry))]
              | None => []
              end
            else []))%list /\
        inFlight (click env entry w) =
          (inFlight w ++ (if isUndefined (children entry) then [path entry] else []))%list).
Proof.
  exists (expandButton_onClick entry).
  unfold click, FileTreeNode_button, expandButton_onClick.
  rewrite Hdir, Hcollapsed. cbn [andb].
  destruct (children entry) as [cs|]; cbn [isUndefined app filter isLoad fold_left runCallback].
  - repeat split.
    + intros [H|[]]; discriminate.
    + discriminate.
    + cbn. now rewrite app_nil_r.
    + cbn. now rewrite app_nil_r.
  - repeat split.
    + now left.
    + cbn. now destruct (cluster env); rewrite ?app_nil_r.
Qed.

Lemma expand_loads_iff_never_loaded_witness :
  exists callbacks,
    FileTreeNode_button (directoryNode "var" "/var" (Some false) None) = Some callbacks /\
    filter isLoad callbacks = [OnLoadChildren "/var"].
Proof.
  destruct (expand_loads_iff_never_loaded
              (directoryNode "var" "/var" (Some false) None) eq_refl eq_refl)
    as (callbacks & Hb & Hl & _).
  exists callbacks. split; [exact Hb|exact Hl].
Defined.

(** ** Starting a load *)

Lemma argsEqb_refl (a : list string) : argsEqb a a = true.
Proof. induction a as [|x a IH]; cbn; [reflexivity|]. now rewrite String.eqb_refl. Qed.

(** C2, as amended. [loadChildren] has no guard: every call for a path
    puts one more load of that path in flight and, with a cluster at hand,
    makes one more [execFile] call that lists the path, whether or not a
    load for the same path is in flight already; [n] calls in a row make
    [n] listings.  The expand button does not look at the loading flag
    either: a click on a directory starts a load exactly when the node is
    collapsed and its children are undefined. *)
Theorem every_trigger_issues_a_listing (env : Env) (targetPath : string) (w : World) :
  inFlight (loadChildren_start env targetPath w) = (inFlight w ++ [targetPath])%list /\
  (forall c, cluster env = Some c ->
     invocations (loadChildren_start env targetPath w) =
       (invocations w ++ [(kubectlPath env, listArgs env targetPath)])%list /\
     forall n,
       listingsOf env targetPath (Nat.iter n (loadChildren_start env targetPath) w) =
       n + listingsOf env targetPath w) /\
  (forall entry, isDirectory entry = true ->
     inFlight (click env entry w) =
       (inFlight w ++
        (if Js.falsy (expanded entry) && isUndefined (children entry)
         then [path entry] else []))%list) /\
  (forall c entry, cluster env = Some c -> isDirectory entry = true ->
     invocations (click env entry w) =
       (invocations w ++
        (if Js.falsy (expanded entry) && isUndefined (children entry)
         then [(kubectlPath env, listArgs env (path entry))] else []))%list).
Proof.
  split; [reflexivity|]. split; [|split].
  - intros c Hcluster.
    assert (Hinv : forall w0, invocations (loadChildren_start env targetPath w0) =
              (invocations w0 ++ [(kubectlPath env, listArgs env targetPath)])%list).
    { intros w0. unfold loadChildren_start. cbn. now rewrite Hcluster. }
    split; [apply Hinv|].
    induction n as [|n IH]; [reflexivity|].
    rewrite Nat.iter_succ. unfold listingsOf in *.
    rewrite Hinv, filter_app, length_app, IH. cbn.
    rewrite argsEqb_refl. cbn. lia.
  - intros entry Hdir.
    unfold click, FileTreeNode_button, expandButton_onClick. rewrite Hdir.
    destruct (Js.falsy (expanded entry) && isUndefined (children entry));
      cbn; rewrite ?app_nil_r; reflexivity.
  - intros c entry Hcluster Hdir.
    unfold click, FileTreeNode_button, expandButton_onClick. rewrite Hdir.
    destruct (Js.falsy (expanded entry) && isUndefined (children entry));
      cbn; rewrite ?Hcluster, ?app_nil_r; reflexivity.
Qed.

Lemma every_trigger_issues_a_listing_witness :
  listingsOf sampleEnv "/var"
    (Nat.iter 2 (loadChildren_start sampleEnv "/var")
       (worldOf [directoryNode "var" "/var" (Some false) None])) =
  2 + listingsOf sampleEnv "/var" (worldOf [directoryNode "var" "/var" (Some false) None]) /\
  invocations
    (click sampleEnv (withLoading (Some true) (directoryNode "var" "/var" (Some false) None))
       (loadChildren_start sampleEnv "/var"
          (worldOf [directoryNode "var" "/var" (Some false) None]))) =
  [(kubectlPath sampleEnv, listArgs sampleEnv "/var");
   (kubectlPath sampleEnv, listArgs sampleEnv "/var")].
Proof.
  split.
  - apply (proj1 (proj2 (every_trigger_issues_a_listing sampleEnv "/var"
             (worldOf [directoryNode "var" "/var" (Some false) None])))
             {| kubeConfigPath := "/home/op/.kube/config"; contextName := "prod" |} eq_refl).
  - apply (proj2 (proj2 (proj2 (every_trigger_issues_a_listing sampleEnv "/var"
             (loadChildren_start sampleEnv "/var"
                (worldOf [directoryNode "var" "/var" (Some false) None])))))
             {| kubeConfigPath := "/home/op/.kube/config"; contextName := "prod" |}
             (withLoading (Some true) (directoryNode "var" "/var" (Some false) None))
             eq_refl eq_refl).
Defined.

(** C2 as stated fails: a second [loadChildren] for [/var], begun while the
    first is in flight and the node is flagged as loading, lists [/var] a
    second time; so does a third click on the button (the second click
    only collapses the node), with neither load settled. *)
Lemma second_trigger_issues_second_listing :
  let w0 := worldOf [directoryNode "var" "/var" (Some false) None] in
  let w1 := loadChildren_start sampleEnv "/var" w0 in
  let w2 := loadChildren_start sampleEnv "/var" w1 in
  let clicked := clickAt sampleEnv [0] (clickAt sampleEnv [0] (clickAt sampleEnv [0] w0)) in
  (inFlight w1 = ["/var"] /\
   option_map loading (nodeAt [0] (rootFiles (dialog w1))) = Some (Some true) /\
   listingsOf sampleEnv "/var" w1 = 1) /\
  (inFlight w2 = ["/var"; "/var"] /\ listingsOf sampleEnv "/var" w2 = 2) /\
  (inFlight clicked = ["/var"; "/var"] /\ listingsOf sampleEnv "/var" clicked = 2).
Proof. vm_compute. repeat split. Qed.

(** ** A load that fails *)

Lemma failed_fields (targetPath : string) (file : FileEntry) :
  let file' := updateNode (effectOf FailLoad) targetPath file in
  fieldsButLoading file' = fieldsButLoading file /\
  (String.eqb (path file) targetPath = false -> loading file' = loading file) /\
  (String.eqb (path file) targetPath = true -> loading file' = Some false).
Proof.
  cbv zeta. rewrite updateNode_unfold.
  destruct file as [n p d s pm ex ch ld]; cbn.
  destruct (String.eqb p targetPath); [repeat split; discriminate|].
  destruct ch as [cs|]; cbn; [|repeat split; discriminate].
  unfold fieldsButLoading; cbn. rewrite length_map. repeat split; discriminate.
Qed.

(** C3, as amended. When the load of the children of a path fails, the
    message goes to the one [error] state of the dialog, not to the node:
    an entry has no property for it. In the tree the failure clears
    [loading] on the nodes with that path which the search reaches and
    changes nothing else: every node keeps its other properties and the
    number of its children, a node with another path keeps [loading] too,
    and a node with no node of that path in its subtree is the same as
    before. *)
Theorem load_failure_effect (env : Env) (targetPath : string) (settled : ExecResult)
    (w : World) (err : Thrown)
    (Hfail : listFilesAtPath env targetPath settled = Throw err) :
  let w' := loadChildren_settle env targetPath settled w in
  error (dialog w') = Some (errorMessage err) /\
  rootFiles (dialog w') = updateFilesOnError targetPath (rootFiles (dialog w)) /\
  (forall pos file,
      nodeAt pos (rootFiles (dialog w)) = Some file ->
      exists file',
        nodeAt pos (rootFiles (dialog w')) = Some file' /\
        fieldsButLoading file' = fieldsButLoading file /\
        (String.eqb (path file) targetPath = false -> loading file' = loading file) /\
        (String.eqb (path file) targetPath = true ->
         targetAbove targetPath pos (rootFiles (dialog w)) = false ->
         loading file' = Some false) /\
        (occursIn targetPath file = false -> file' = file)).
Proof.
  cbv zeta. unfold loadChildren_settle. rewrite Hfail.
  unfold setRootFiles, setError. cbn [dialog rootFiles error].
  split; [reflexivity|]. split; [reflexivity|].
  intros pos file Hn.
  change (updateFilesOnError targetPath (rootFiles (dialog w)))
    with (mutate FailLoad targetPath (rootFiles (dialog w))).
  rewrite mutate_traversal.
  destruct (targetAbove targetPath pos (rootFiles (dialog w))) eqn:Ha.
  - exists file. split; [|repeat split; auto; discriminate].
    apply nodeAt_sheltered; [reflexivity|assumption|assumption].
  - exists (updateNode (effectOf FailLoad) targetPath file).
    split; [exact (nodeAt_reached _ _ _ _ _ Hn Ha)|].
    destruct (failed_fields targetPath file) as (H1 & H2 & H3).
    repeat split; auto. intros Hfree. now apply updateNode_absent.
Qed.

Lemma load_failure_effect_witness :
  error (dialog (loadChildren_settle sampleEnv "/var"
                   (CallFailed (Some "ls: cannot open directory") None)
                   (worldOf [directoryNode "var" "/var" (Some true) None;
                             fileNode "readme.txt" "/readme.txt" 120]))) =
  Some "ls: cannot open directory".
Proof.
  apply (load_failure_effect sampleEnv "/var"
           (CallFailed (Some "ls: cannot open directory") None)
           (worldOf [directoryNode "var" "/var" (Some true) None;
                     fileNode "readme.txt" "/readme.txt" 120])
           (ErrorObject "ls: cannot open directory") eq_refl).
Defined.

(** C3 as stated fails: two loads of [/var] that fail with different
    messages leave the same tree, in which the node only has [loading]
    cleared; the messages differ in the [error] state of the dialog alone. *)
Lemma failure_leaves_no_trace_on_node :
  let loadingVar := withLoading (Some true) (directoryNode "var" "/var" (Some true) None) in
  let w := worldOf [loadingVar; fileNode "readme.txt" "/readme.txt" 120] in
  let w1 := loadChildren_settle sampleEnv "/var" (CallFailed (Some "permission denied") None) w in
  let w2 := loadChildren_settle sampleEnv "/var" (CallFailed (Some "no such directory") None) w in
  rootFiles (dialog w1) = rootFiles (dialog w2) /\
  rootFiles (dialog w1) =
    [withLoading (Some false) loadingVar; fileNode "readme.txt" "/readme.txt" 120] /\
  error (dialog w1) = Some "permission denied" /\
  error (dialog w2) = Some "no such directory".
Proof. vm_compute. repeat split. Qed.

(** ** The listing command *)

Lemma safePath_cons (c : ascii) (r : string) :
  safePath (String c r) =
  if Ascii.eqb c Js.DQUOTE then String Js.BACKSLASH (String Js.DQUOTE (safePath r))
  else String c (safePath r).
Proof. unfold safePath. cbn [Js.replaceAll]. now destruct (Ascii.eqb c Js.DQUOTE). Qed.

(** In the escaped path every double quote stands behind a backslash that
    the replacement has put there. *)
Lemma safePath_quote_preceded (targetPath : string) :
  forall pre post,
    safePath targetPath = pre ++ String Js.DQUOTE post ->
    exists pre', pre = pre' ++ String Js.BACKSLASH EmptyString.
Proof.
  induction targetPath as [|c r IH]; intros pre post H.
  - destruct pre; discriminate.
  - rewrite safePath_cons in H.
    destruct (Ascii.eqb_spec c Js.DQUOTE) as [->|Hc].
    + destruct pre as [|x [|y pre2]]; cbn [append] in H.
      * discriminate.
      * injection H as Hx _. subst x. now exists EmptyString.
      * injection H as Hx Hy H. subst x y. destruct (IH _ _ H) as (pre' & ->).
        now exists (String Js.BACKSLASH (String Js.DQUOTE pre')).
    + destruct pre as [|x pre1]; cbn [append] in H.
      * injection H as Hx _. contradiction.
      * injection H as Hx H. subst x. destruct (IH _ _ H) as (pre' & ->).
        now exists (String c pre').
Qed.

(** The shell reads the operand back as the path when the path holds no
    backslash, dollar sign or backquote; spaces and quotes of either kind
    do no harm. *)
Lemma plain_path_round_trip (targetPath : string) :
  Sh.plain targetPath = true ->
  Sh.listOperand (listCommand targetPath) = Some (Sh.Literal targetPath EmptyString).
Proof.
  intros Hplain.
  change (Sh.listOperand (listCommand targetPath))
    with (Some (Sh.readDoubleQuoted (safePath targetPath ++ String Js.DQUOTE EmptyString))).
  f_equal.
  induction targetPath as [|c r IH]; [reflexivity|].
  cbn [Sh.plain] in Hplain. apply andb_prop in Hplain as [Hc Hr].
  apply negb_true_iff in Hc. unfold Sh.special in Hc.
  apply orb_false_elim in Hc as [Hexp Hbs].
  rewrite safePath_cons.
  destruct (Ascii.eqb c Js.DQUOTE) eqn:Hq.
  - apply Ascii.eqb_eq in Hq as ->.
    cbn [append Sh.readDoubleQuoted]. cbn. rewrite (IH Hr). reflexivity.
  - cbn [append Sh.readDoubleQuoted]. rewrite Hq, Hexp, Hbs, (IH Hr). reflexivity.
Qed.

Example path_with_spaces_and_quotes_round_trips :
  let p := "/data/my " ++ String Js.DQUOTE ("best" ++ String Js.DQUOTE " file's dir") in
  Sh.listOperand (listCommand p) = Some (Sh.Literal p EmptyString).
Proof. cbv zeta. apply plain_path_round_trip. reflexivity. Qed.

Lemma safePath_not_quote_first (s : string) (r : string) :
  safePath s <> String Js.DQUOTE r.
Proof.
  destruct s as [|c s']; [discriminate|].
  rewrite safePath_cons. destruct (Ascii.eqb c Js.DQUOTE) eqn:Hc.
  - discriminate.
  - intros [= -> _]. discriminate.
Qed.

Lemma safePath_injective (p q : string) : safePath p = safePath q -> p = q.
Proof.
  revert q. induction p as [|c p IH]; intros q H.
  - destruct q as [|d q]; [reflexivity|].
    rewrite safePath_cons in H. destruct (Ascii.eqb d Js.DQUOTE); discriminate.
  - destruct q as [|d q].
    + rewrite safePath_cons in H. destruct (Ascii.eqb c Js.DQUOTE); discriminate.
    + rewrite !safePath_cons in H.
      destruct (Ascii.eqb_spec c Js.DQUOTE) as [->|Hc];
        destruct (Ascii.eqb_spec d Js.DQUOTE) as [->|Hd].
      * injection H as H. f_equal. now apply IH.
      * injection H as Hd' H. symmetry in H. now apply safePath_not_quote_first in H.
      * injection H as Hc' H. now apply safePath_not_quote_first in H.
      * injection H as -> H. f_equal. now apply IH.
Qed.

Lemma append_cancel_r (a b : string) (c : ascii) :
  a ++ String c "" = b ++ String c "" -> a = b.
Proof.
  revert b. induction a as [|x a IH]; intros [|y b] H; cbn in H.
  - reflexivity.
  - injection H as _ H. destruct b; discriminate.
  - injection H as _ H. destruct a; discriminate.
  - injection H as -> H. f_equal. now apply IH.
Qed.

Lemma listCommand_injective (p q : string) : listCommand p = listCommand q -> p = q.
Proof.
  intros H. unfold listCommand in H. cbn [append] in H.
  injection H as H. apply append_cancel_r in H. now apply safePath_injective.
Qed.



(** The escaping covers the double quote alone.  A backslash of the path
    is passed on as it is, and in front of a double quote it escapes the
    backslash that was added for that quote. *)
Example backslash_defeats_quote_escaping :
  let p := "/data/a\" ++ String Js.DQUOTE "b" in
  listCommand p =
    "ls -la -- " ++ String Js.DQUOTE ("/data/a\\" ++ String Js.DQUOTE ("b" ++ String Js.DQUOTE "")) /\
  Sh.listOperand (listCommand p) =
    Some (Sh.Literal "/data/a\" ("b" ++ String Js.DQUOTE "")) /\
  Sh.listOperand (listCommand p) <> Some (Sh.Literal p "").
Proof.
  cbv zeta. split; [reflexivity|]. split; [reflexivity|].
  vm_compute. discriminate.
Qed.

(** A dollar sign of the path reaches the shell as the start of an
    expansion. *)
Example dollar_reaches_the_shell :
  Sh.listOperand (listCommand "/data/$(id) x") = Some Sh.Expansion.
Proof. reflexivity. Qed.

(** ** The superseded parser *)

(** The first [parseListOutput] of the file keeps the entries [.] and [..]
    and has no guard for a value that is no string. *)
Example legacy_parser_keeps_dotted :
  (exists e, Legacy.parseListOutput
               (StringValue "drwxr-xr-x 2 root root 4096 Jan 1 00:00 ..") "/var" = Ok [e] /\
             name e = "..") /\
  Legacy.parseListOutput (NonString false) "/var" =
    Throw (ErrorObject "output.split is not a function").
Proof. split; [eexists; split; reflexivity|reflexivity]. Qed.

(** The root listing of the superseded dialog puts the path between the
    double quotes unescaped; the dialog calls it with [/] only. *)
Example legacy_root_listing_is_raw :
  Legacy.loadFilesAtPath_command sampleEnv "/" =
    "kubectl exec -i -n default web-server -c app -- ls -lah " ++
    String Js.DQUOTE ("/" ++ String Js.DQUOTE " 2>&1") /\
  forall targetPath,
    Legacy.loadFilesAtPath_command sampleEnv targetPath =
    "kubectl exec -i -n default web-server -c app -- ls -lah " ++
    String Js.DQUOTE (targetPath ++ String Js.DQUOTE " 2>&1").
Proof. split; reflexivity. Qed.

(** * Further properties *)

(** ** The entries of a listing *)

(** Every entry [parseLine] builds, in full. *)
Lemma parseLine_entry (basePath line : string) (e : FileEntry) :
  parseLine basePath line = Ok (Some e) ->
  exists perms,
    nth_error (Js.splitWhiteSpace line) 0 = Some perms /\
    (9 <= length (Js.splitWhiteSpace line))%nat /\
    e = {| name := recoveredName line;
           path := if String.eqb basePath "/" then "/" ++ recoveredName line
                   else basePath ++ "/" ++ recoveredName line;
           isDirectory := Js.startsWith perms "d";
           size := if Js.startsWith perms "d" then None
                   else Js.parseInt (nth_error (Js.splitWhiteSpace line) 4);
           permissions := Some perms;
           expanded := Some false;
           children := if Js.startsWith perms "d" then Some [] else None;
           loading := None |}.
Proof.
  unfold parseLine, recoveredName.
  destruct (length (Js.splitWhiteSpace line) <? 9)%nat eqn:Hlen; [discriminate|].
  apply Nat.ltb_ge in Hlen.
  destruct (nth_error (Js.splitWhiteSpace line) 0) as [p|]; [|discriminate].
  cbn [bind].
  match goal with |- context [if ?b then Ok None else _] => destruct b end;
    [discriminate|].
  intros H. injection H as <-. exists p. auto.
Qed.

Lemma parsed_entries_from_trimmed (output : RawOutput) (basePath : string)
    (entries : list FileEntry) (e : FileEntry) :
  parseListOutput output basePath = Ok entries -> In e entries ->
  exists raw, parseLine basePath (Js.trim raw) = Ok (Some e).
Proof.
  intros H Hin.
  destruct (parseListOutput_Ok output basePath) as (entries' & H' & lines & ->).
  rewrite H in H'. injection H' as ->.
  apply in_flat_map in Hin as (line & _ & Hin).
  eauto using contribution_In.
Qed.

Lemma trimEnd_last (s : string) : lastIsWhite (Js.trimEnd s) = false.
Proof.
  induction s as [|c r IH]; [reflexivity|].
  cbn [Js.trimEnd]. destruct (Js.trimEnd r) as [|d r'] eqn:Hr.
  - destruct (Js.isWhiteSpace c) eqn:Hc; [reflexivity|]. cbn. exact Hc.
  - exact IH.
Qed.

Lemma trimStart_first (s : string) (c : ascii) (r : string) :
  Js.trimStart s = String c r -> Js.isWhiteSpace c = false.
Proof.
  induction s as [|x s IH]; [discriminate|].
  cbn [Js.trimStart]. destruct (Js.isWhiteSpace x) eqn:Hx; [exact IH|].
  intros H. injection H as <- _. exact Hx.
Qed.

Lemma trimEnd_first (c : ascii) (r : string) :
  Js.isWhiteSpace c = false -> exists r', Js.trimEnd (String c r) = String c r'.
Proof.
  intros Hc. cbn [Js.trimEnd]. rewrite Hc.
  destruct (Js.trimEnd r); eauto.
Qed.

Lemma trim_clean (s : string) :
  Js.trim s = "" \/
  exists c r, Js.trim s = String c r /\ Js.isWhiteSpace c = false /\
              lastIsWhite (String c r) = false.
Proof.
  unfold Js.trim. destruct (Js.trimStart s) as [|c r] eqn:Hs; [now left|].
  right. pose proof (trimStart_first _ _ _ Hs) as Hc.
  destruct (trimEnd_first c r Hc) as (r' & Hr').
  exists c, r'. split; [exact Hr'|]. split; [exact Hc|].
  rewrite <- Hr'. apply trimEnd_last.
Qed.

Lemma splitRuns_head (b : bool) (s : string) : Js.splitRuns b s <> [].
Proof.
  revert b. induction s as [|c r IH]; intros b; cbn [Js.splitRuns]; [discriminate|].
  destruct (Js.isWhiteSpace c).
  - destruct b; [apply IH|discriminate].
  - destruct (Js.splitRuns false r); discriminate.
Qed.

Lemma splitRuns_tokens (s : string) :
  s <> "" -> lastIsWhite s = false ->
  Forall nonEmpty (Js.splitRuns true s) /\
  Forall nonEmpty (tl (Js.splitRuns false s)).
Proof.
  induction s as [|c r IH]; [congruence|]. intros _ Hlast.
  destruct r as [|d r'].
  - cbn [lastIsWhite] in Hlast. cbn [Js.splitRuns]. rewrite Hlast. cbn [tl].
    split; [constructor; [discriminate|constructor]|constructor].
  - assert (Hr : lastIsWhite (String d r') = false) by exact Hlast.
    destruct (IH ltac:(discriminate) Hr) as [P1 P2]. clear IH Hlast Hr.
    remember (String d r') as s' eqn:Hs'. clear Hs'.
    cbn [Js.splitRuns]. destruct (Js.isWhiteSpace c).
    + split; [exact P1|exact P1].
    + pose proof (splitRuns_head false s') as Hne.
      destruct (Js.splitRuns false s') as [|h t]; [contradiction|].
      cbn [tl] in *. split; [|exact P2].
      constructor; [discriminate|exact P2].
Qed.

Lemma trimmed_tokens (raw : string) :
  Js.trim raw <> "" -> Forall nonEmpty (Js.splitWhiteSpace (Js.trim raw)).
Proof.
  intros Hne. destruct (trim_clean raw) as [H|(c & r & H & Hc & Hl)]; [contradiction|].
  rewrite H. unfold Js.splitWhiteSpace.
  destruct (splitRuns_tokens (String c r) ltac:(discriminate) Hl) as [_ P2].
  cbn [Js.splitRuns] in *. rewrite Hc in *.
  pose proof (splitRuns_head false r) as Hh.
  destruct (Js.splitRuns false r) as [|h t]; [contradiction|].
  constructor; [discriminate|exact P2].
Qed.

Lemma join_nonEmpty (sep : string) (parts : list string) :
  parts <> [] -> Forall nonEmpty parts -> Js.join sep parts <> "".
Proof.
  destruct parts as [|x l]; [congruence|]. intros _ H.
  inversion H as [|? ? Hx Hl]; subst. unfold nonEmpty in Hx.
  destruct x as [|c x']; [congruence|].
  unfold Js.join. cbn [concat]. destruct l; cbn; discriminate.
Qed.

Lemma Forall_skipn {A : Type} (P : A -> Prop) (n : nat) (l : list A) :
  Forall P l -> Forall P (skipn n l).
Proof.
  intros H. revert n. induction H as [|x l Hx Hl IH]; intros [|n]; cbn; auto.
Qed.

Lemma append_length (a b : string) :
  String.length (a ++ b) = String.length a + String.length b.
Proof. induction a as [|c a IH]; cbn; [reflexivity|]. now rewrite IH. Qed.

Lemma append_empty_r (a : string) : a ++ "" = a.
Proof. induction a as [|c a IH]; cbn; [reflexivity|]. now rewrite IH. Qed.

Lemma append_assoc (a b c : string) : (a ++ b) ++ c = a ++ (b ++ c).
Proof. induction a as [|x a IH]; cbn; [reflexivity|]. now rewrite IH. Qed.

Lemma append_nonEmpty_r (a b : string) : b <> "" -> a ++ b <> "".
Proof. destruct a; cbn; [auto|discriminate]. Qed.

(** X1. Every entry of the output has a non-empty name, and its path is the
    parent path, one slash (none more for the root), and that name; so no
    entry has the path of its parent. *)
Theorem parsed_paths_under_parent :
  forall output basePath,
    exists entries, parseListOutput output basePath = Ok entries /\
      Forall (fun e =>
                name e <> "" /\
                path e = (if String.eqb basePath "/" then "/" ++ name e
                          else basePath ++ "/" ++ name e) /\
                path e <> basePath) entries.
Proof.
  intros output basePath.
  destruct (parseListOutput_Ok output basePath) as (entries & H & _).
  exists entries. split; [assumption|].
  apply Forall_forall. intros e Hin.
  destruct (parsed_entries_from_trimmed _ _ _ _ H Hin) as (raw & Hline).
  destruct (parseLine_entry _ _ _ Hline) as (perms & Hp & Hlen & He).
  assert (Hname : name e <> "").
  { rewrite He. cbn [name]. unfold recoveredName, Js.slice.
    assert (Hraw : Js.trim raw <> "").
    { intros Heq. rewrite Heq in Hlen. cbn in Hlen. lia. }
    apply join_nonEmpty.
    - intros Hs. apply (f_equal (@length string)) in Hs.
      rewrite length_skipn in Hs. cbn in Hs. lia.
    - apply Forall_skipn, trimmed_tokens, Hraw. }
  assert (Hpath : path e = (if String.eqb basePath "/" then "/" ++ name e
                            else basePath ++ "/" ++ name e)).
  { rewrite He. reflexivity. }
  split; [exact Hname|]. split; [exact Hpath|].
  rewrite Hpath. destruct (String.eqb basePath "/") eqn:Hb.
  - apply String.eqb_eq in Hb. subst basePath.
    destruct (name e); [congruence|]. cbn. discriminate.
  - intros Heq. apply (f_equal String.length) in Heq.
    rewrite !append_length in Heq. cbn in Heq. lia.
Qed.

(** X2. In every entry of the output the permissions are set, the entry is
    a directory exactly when they start with a [d], a directory has no size,
    and the entry is collapsed and not loading. *)
Theorem parsed_kinds :
  forall output basePath,
    exists entries, parseListOutput output basePath = Ok entries /\
      Forall (fun e =>
                (exists perms, permissions e = Some perms /\
                               isDirectory e = Js.startsWith perms "d") /\
                (if isDirectory e then size e = None else True) /\
                expanded e = Some false /\
                loading e = None) entries.
Proof.
  intros output basePath.
  destruct (parseListOutput_Ok output basePath) as (entries & H & _).
  exists entries. split; [assumption|].
  apply Forall_forall. intros e Hin.
  destruct (parsed_entries_from_trimmed _ _ _ _ H Hin) as (raw & Hline).
  destruct (parseLine_entry _ _ _ Hline) as (perms & _ & _ & ->). cbn.
  split; [eauto|]. destruct (Js.startsWith perms "d"); auto.
Qed.

(** ** Listings line by line *)

Lemma flat_map_length_le {A B : Type} (f : A -> list B) (l : list A) :
  (forall a, length (f a) <= 1)%nat -> (length (flat_map f l) <= length l)%nat.
Proof.
  intros H. induction l as [|a l IH]; cbn; [lia|].
  rewrite length_app. specialize (H a). lia.
Qed.

Lemma contribution_length (basePath line : string) :
  (length (contribution basePath line) <= 1)%nat.
Proof.
  unfold contribution. destruct (keepLine (Js.trim line)); [|cbn; lia].
  destruct (lineEntry basePath (Js.trim line)); cbn; lia.
Qed.

(** X3. The parser works line by line and keeps the order of the lines:
    the entries of two listings put one after the other are the entries of
    the first followed by the entries of the second, and a listing never
    yields more entries than it has lines. *)
Theorem parser_line_by_line (basePath : string) (lines1 lines2 : list string)
    (Hlines : forallb singleLine (lines1 ++ lines2) = true) :
  exists entries1 entries2,
    parseListOutput (StringValue (Js.join lineFeed lines1)) basePath = Ok entries1 /\
    parseListOutput (StringValue (Js.join lineFeed lines2)) basePath = Ok entries2 /\
    parseListOutput (StringValue (Js.join lineFeed (lines1 ++ lines2))) basePath =
      Ok (entries1 ++ entries2)%list /\
    (length (entries1 ++ entries2) <= length (lines1 ++ lines2))%nat.
Proof.
  pose proof Hlines as Hboth.
  rewrite forallb_app in Hlines. apply andb_prop in Hlines as [H1 H2].
  exists (flat_map (contribution basePath) lines1),
         (flat_map (contribution basePath) lines2).
  rewrite !parse_join, !parseLines_flat_map by assumption.
  rewrite flat_map_app. repeat split.
  rewrite <- flat_map_app.
  apply flat_map_length_le, contribution_length.
Qed.

Lemma parser_line_by_line_witness :
  exists entries1 entries2,
    parseListOutput (StringValue (Js.join lineFeed
      ["total 8"; "drwxr-xr-x 2 root root 4096 Jan 1 00:00 var"])) "/" = Ok entries1 /\
    parseListOutput (StringValue (Js.join lineFeed
      ["-rw-r--r-- 1 root root 120 Jan 1 00:00 readme.txt"])) "/" = Ok entries2 /\
    parseListOutput (StringValue (Js.join lineFeed
      (["total 8"; "drwxr-xr-x 2 root root 4096 Jan 1 00:00 var"] ++
       ["-rw-r--r-- 1 root root 120 Jan 1 00:00 readme.txt"]))) "/" =
      Ok (entries1 ++ entries2)%list /\
    (length (entries1 ++ entries2) <=
     length (["total 8"; "drwxr-xr-x 2 root root 4096 Jan 1 00:00 var"] ++
             ["-rw-r--r-- 1 root root 120 Jan 1 00:00 readme.txt"]))%nat.
Proof.
  apply (parser_line_by_line "/"
           ["total 8"; "drwxr-xr-x 2 root root 4096 Jan 1 00:00 var"]
           ["-rw-r--r-- 1 root root 120 Jan 1 00:00 readme.txt"]).
  reflexivity.
Defined.

(** X4. A blank line, a line of white space only, and a line that starts
    (after trimming) with the word total add nothing: the listing parses
    like the listing without that line. *)
Theorem summary_and_blank_lines_dropped (basePath : string)
    (before after : list string) (line : string)
    (Hlines : forallb singleLine (before ++ line :: after) = true)
    (Hline : Js.trim line = "" \/ Js.startsWith (Js.trim line) "total" = true) :
  parseListOutput (StringValue (Js.join lineFeed (before ++ line :: after))) basePath =
  parseListOutput (StringValue (Js.join lineFeed (before ++ after))) basePath.
Proof.
  assert (Hl' : forallb singleLine (before ++ after) = true).
  { rewrite forallb_app in *. cbn [forallb] in Hlines.
    apply andb_prop in Hlines as [H1 H2]. apply andb_prop in H2 as [_ H2].
    now rewrite H1, H2. }
  rewrite !parse_join, !parseLines_flat_map by assumption.
  rewrite !flat_map_app. cbn [flat_map].
  assert (Hc : contribution basePath line = []).
  { unfold contribution, keepLine. destruct Hline as [-> | ->]; [reflexivity|].
    now rewrite andb_false_r. }
  now rewrite Hc.
Qed.

Lemma summary_and_blank_lines_dropped_witness :
  parseListOutput
    (StringValue (Js.join lineFeed
       ["  total 12"; "-rw-r--r-- 1 root root 120 Jan 1 00:00 readme.txt"])) "/" =
  parseListOutput
    (StringValue (Js.join lineFeed
       ["-rw-r--r-- 1 root root 120 Jan 1 00:00 readme.txt"])) "/".
Proof.
  apply (summary_and_blank_lines_dropped "/" []
           ["-rw-r--r-- 1 root root 120 Jan 1 00:00 readme.txt"] "  total 12").
  - reflexivity.
  - right. reflexivity.
Defined.

(** ** Lines made of tokens *)

Lemma splitRuns_token (t : string) :
  noWhite t = true -> t <> "" ->
  forall b s,
    Js.splitRuns b (t ++ s) =
    (t ++ hd "" (Js.splitRuns false s)) :: tl (Js.splitRuns false s).
Proof.
  induction t as [|c t IH]; [congruence|].
  intros Hw _ b s. cbn [noWhite] in Hw. apply andb_prop in Hw as [Hc Ht].
  apply negb_true_iff in Hc.
  cbn [append Js.splitRuns]. rewrite Hc.
  destruct t as [|d t'].
  - cbn [append]. pose proof (splitRuns_head false s) as Hne.
    destruct (Js.splitRuns false s); [contradiction|reflexivity].
  - rewrite (IH Ht ltac:(discriminate) false s). reflexivity.
Qed.

Lemma splitRuns_separator (sep : string) :
  allWhite sep = true -> forall s, Js.splitRuns true (sep ++ s) = Js.splitRuns true s.
Proof.
  induction sep as [|c sep IH]; [reflexivity|].
  intros Hw s. cbn [allWhite] in Hw. apply andb_prop in Hw as [Hc Hs].
  cbn [append Js.splitRuns]. rewrite Hc. now apply IH.
Qed.

Lemma splitRuns_after_separator (s : string) (c : ascii) (r : string) :
  s = String c r -> Js.isWhiteSpace c = false ->
  Js.splitRuns true s = Js.splitRuns false s.
Proof. intros -> Hc. cbn [Js.splitRuns]. now rewrite Hc. Qed.

Lemma isToken_inv (t : string) :
  isToken t = true ->
  noWhite t = true /\ t <> "" /\
  exists c r, t = String c r /\ Js.isWhiteSpace c = false.
Proof.
  unfold isToken. intros H. apply andb_prop in H as [Hne Hw].
  destruct t as [|c r]; [discriminate|].
  split; [exact Hw|]. split; [discriminate|].
  exists c, r. split; [reflexivity|].
  cbn [noWhite] in Hw. apply andb_prop in Hw as [Hc _]. now apply negb_true_iff.
Qed.

Lemma weave_first (first : string) (rest : list (string * string)) (c : ascii) (r : string) :
  first = String c r -> exists r', weave first rest = String c r'.
Proof.
  intros ->. destruct rest as [|[sep tok] rest']; cbn; eauto.
Qed.

(** The tokens of a woven line are the tokens it was woven from. *)
Lemma split_weave (rest : list (string * string)) :
  forall first,
    wellFormed first rest = true ->
    Js.splitWhiteSpace (weave first rest) = first :: map snd rest.
Proof.
  unfold Js.splitWhiteSpace, wellFormed.
  induction rest as [|[sep tok] rest IH]; intros first H;
    apply andb_prop in H as [Hf Hr];
    destruct (isToken_inv first Hf) as (Hw & Hne & _).
  - cbn [weave map]. rewrite <- (append_empty_r first) at 1.
    rewrite (splitRuns_token first Hw Hne). cbn. now rewrite append_empty_r.
  - cbn [forallb fst snd] in Hr. apply andb_prop in Hr as [Hp Hr].
    apply andb_prop in Hp as [Hsep Htok].
    cbn [weave map snd]. rewrite (splitRuns_token first Hw Hne).
    unfold isSeparator in Hsep. apply andb_prop in Hsep as [Hsne Hsw].
    destruct sep as [|x sep']; [discriminate|].
    cbn [allWhite] in Hsw. apply andb_prop in Hsw as [Hx Hsw].
    cbn [append Js.splitRuns]. rewrite Hx.
    rewrite (splitRuns_separator sep' Hsw).
    destruct (isToken_inv tok Htok) as (_ & _ & c & r & Htc & Hc).
    destruct (weave_first tok rest c r Htc) as (r' & Hwv).
    rewrite (splitRuns_after_separator _ c r' Hwv Hc).
    rewrite IH by (now rewrite Htok, Hr).
    cbn. now rewrite append_empty_r.
Qed.

(** X5. A line woven from at least nine tokens, with any runs of white
    space between them, yields the entry whose permissions are the first
    token, whose size is read from the fifth and whose name is the tokens
    from the ninth on joined by single spaces: a name with spaces comes
    back, with every run of white space in it reduced to one space. *)
Theorem well_formed_line_parses (basePath first : string) (rest : list (string * string))
    (Hwf : wellFormed first rest = true)
    (Hlen : (8 <= length rest)%nat) :
  let parts := first :: map snd rest in
  let fileName := Js.join " " (skipn 8 parts) in
  let directory := Js.startsWith first "d" in
  parseLine basePath (weave first rest) =
  Ok (if String.eqb fileName "." || String.eqb fileName ".." then None
      else Some {| name := fileName;
                   path := if String.eqb basePath "/" then "/" ++ fileName
                           else basePath ++ "/" ++ fileName;
                   isDirectory := directory;
                   size := if directory then None else Js.parseInt (nth_error parts 4);
                   permissions := Some first;
                   expanded := Some false;
                   children := if directory then Some [] else None;
                   loading := None |}).
Proof.
  cbv zeta. unfold parseLine. rewrite (split_weave rest first Hwf).
  assert (Hl : (length (first :: map snd rest) <? 9)%nat = false).
  { apply Nat.ltb_ge. cbn [length]. rewrite length_map. lia. }
  rewrite Hl. cbn [nth_error bind]. unfold Js.slice.
  match goal with |- context [if ?b then Ok None else _] => destruct b end; reflexivity.
Qed.

Lemma well_formed_line_parses_witness :
  parseLine "/data"
    (weave "-rw-r--r--"
       [(" ", "1"); (" ", "root"); (" ", "root"); ("  ", "120"); (" ", "Jan");
        ("  ", "1"); (" ", "00:00"); (" ", "my"); ("   ", "file.txt")]) =
  Ok (Some {| name := "my file.txt"; path := "/data/my file.txt"; isDirectory := false;
              size := Some 120%Z; permissions := Some "-rw-r--r--";
              expanded := Some false; children := None; loading := None |}).
Proof.
  apply (well_formed_line_parses "/data" "-rw-r--r--"
           [(" ", "1"); (" ", "root"); (" ", "root"); ("  ", "120"); (" ", "Jan");
            ("  ", "1"); (" ", "00:00"); (" ", "my"); ("   ", "file.txt")]).
  - reflexivity.
  - cbn. lia.
Defined.

(** ** How the mutators compose *)

Lemma path_withChildren (cs : option (list FileEntry)) (file : FileEntry) :
  path (withChildren cs file) = path file.
Proof. reflexivity. Qed.

Lemma children_withChildren (cs : option (list FileEntry)) (file : FileEntry) :
  children (withChildren cs file) = cs.
Proof. reflexivity. Qed.

Lemma withChildren_twice (a b : option (list FileEntry)) (file : FileEntry) :
  withChildren a (withChildren b file) = withChildren a file.
Proof. reflexivity. Qed.

Lemma withChildren_children (file : FileEntry) :
  withChildren (children file) file = file.
Proof. now destruct file. Qed.

(** Two effects at the same path, one after the other, are one effect. *)
Lemma updateNode_compose (e1 e2 : FileEntry -> FileEntry) (targetPath : string) :
  (forall f, path (e2 f) = path f) ->
  forall file,
    updateNode e1 targetPath (updateNode e2 targetPath file) =
    updateNode (fun f => e1 (e2 f)) targetPath file.
Proof.
  intros Hpath file.
  induction file as [file IH] using FileEntry_tree_ind.
  rewrite (updateNode_unfold e2 targetPath file),
          (updateNode_unfold (fun f => e1 (e2 f)) targetPath file).
  destruct (String.eqb (path file) targetPath) eqn:Hp.
  - rewrite updateNode_unfold, Hpath, Hp. reflexivity.
  - destruct (children file) as [cs|] eqn:Hch.
    + rewrite updateNode_unfold, path_withChildren, Hp, children_withChildren.
      rewrite withChildren_twice, map_map. do 2 f_equal.
      now apply map_ext_Forall.
    + now rewrite updateNode_unfold, Hp, Hch.
Qed.

Lemma updateNode_ext (e e' : FileEntry -> FileEntry) (targetPath : string) :
  (forall f, e f = e' f) ->
  forall file, updateNode e targetPath file = updateNode e' targetPath file.
Proof.
  intros Hext file.
  induction file as [file IH] using FileEntry_tree_ind.
  rewrite !updateNode_unfold.
  destruct (String.eqb (path file) targetPath); [apply Hext|].
  destruct (children file) as [cs|]; [|reflexivity].
  do 2 f_equal. now apply map_ext_Forall.
Qed.

(** Two effects commute when each keeps the path and the children, each
    goes through a change of children, and they commute on one node unless
    the paths differ. *)
Lemma updateNode_commute (e1 e2 : FileEntry -> FileEntry) (p q : string) :
  (forall f, path (e1 f) = path f) ->
  (forall f, path (e2 f) = path f) ->
  (forall f, children (e1 f) = children f) ->
  (forall f, children (e2 f) = children f) ->
  (forall cs f, e1 (withChildren cs f) = withChildren cs (e1 f)) ->
  (forall cs f, e2 (withChildren cs f) = withChildren cs (e2 f)) ->
  (p <> q \/ forall f, e1 (e2 f) = e2 (e1 f)) ->
  forall file,
    updateNode e1 p (updateNode e2 q file) = updateNode e2 q (updateNode e1 p file).
Proof.
  intros Hp1 Hp2 Hc1 Hc2 Hw1 Hw2 Hcomm file.
  induction file as [file IH] using FileEntry_tree_ind.
  rewrite (updateNode_unfold e2 q file), (updateNode_unfold e1 p file).
  destruct (String.eqb (path file) q) eqn:Hq;
    destruct (String.eqb (path file) p) eqn:Hp.
  - rewrite !updateNode_unfold, Hp1, Hp2, Hp, Hq.
    destruct Hcomm as [Hne|Hcomm]; [|apply Hcomm].
    apply String.eqb_eq in Hp, Hq. congruence.
  - rewrite updateNode_unfold, Hp2, Hp, Hc2.
    destruct (children file) as [cs|] eqn:Hch.
    + now rewrite updateNode_unfold, path_withChildren, Hq, Hw2.
    + now rewrite updateNode_unfold, Hq.
  - rewrite (updateNode_unfold e2 q (e1 file)), Hp1, Hq, Hc1.
    destruct (children file) as [cs|] eqn:Hch.
    + now rewrite updateNode_unfold, path_withChildren, Hp, Hw1.
    + now rewrite updateNode_unfold, Hp.
  - destruct (children file) as [cs|] eqn:Hch.
    + rewrite !updateNode_unfold, !path_withChildren, Hp, Hq, !children_withChildren.
      rewrite !withChildren_twice, !map_map. do 2 f_equal.
      now apply map_ext_Forall.
    + now rewrite !updateNode_unfold, Hp, Hq, Hch.
Qed.

Lemma keepsChildren_spec (m : Mutation) :
  keepsChildren m = true -> forall loaded, m <> ApplyChildren loaded.
Proof. intros H l. destruct m; easy. Qed.

(** X6. Toggling, flagging a load and clearing the flag after a failure
    commute with one another, at any two paths, except flagging and
    clearing at the same path; in particular the order in which a click
    flags the node and toggles it does not matter, and neither does the
    order of a toggle and a failure that settles. *)
Theorem flag_mutators_commute (m1 m2 : Mutation) (p q : string) (files : list FileEntry)
    (H1 : keepsChildren m1 = true) (H2 : keepsChildren m2 = true)
    (Hindep : p <> q \/ m1 = m2 \/ m1 = ToggleExpand \/ m2 = ToggleExpand) :
  mutate m1 p (mutate m2 q files) = mutate m2 q (mutate m1 p files).
Proof.
  rewrite !mutate_traversal, !map_map.
  apply map_ext. intros file.
  apply updateNode_commute;
    try (destruct m1; try discriminate; reflexivity);
    try (destruct m2; try discriminate; reflexivity).
  destruct Hindep as [Hne|[->|[->| ->]]]; [now left|right; intros f..].
  - reflexivity.
  - destruct m2; try discriminate; reflexivity.
  - destruct m1; try discriminate; reflexivity.
Qed.

Lemma flag_mutators_commute_witness :
  mutate BeginLoad "/var"
    (mutate ToggleExpand "/var" [directoryNode "var" "/var" (Some false) None]) =
  mutate ToggleExpand "/var"
    (mutate BeginLoad "/var" [directoryNode "var" "/var" (Some false) None]).
Proof.
  apply (flag_mutators_commute BeginLoad ToggleExpand "/var" "/var"
           [directoryNode "var" "/var" (Some false) None] eq_refl eq_refl).
  right. right. right. reflexivity.
Defined.

(** Flagging and clearing at the same path do not commute. *)
Example flag_then_clear_differs :
  mutate FailLoad "/var" (mutate BeginLoad "/var" [directoryNode "var" "/var" None None]) <>
  mutate BeginLoad "/var" (mutate FailLoad "/var" [directoryNode "var" "/var" None None]).
Proof. cbn. discriminate. Qed.

(** X7. A load that settles leaves no trace of its start: clearing the
    flag, or applying the children, after the node was flagged gives what
    it gives on the snapshot before the flag.  Flagging twice is flagging
    once, and toggling three times is toggling once, on every snapshot. *)
Theorem settling_absorbs_flag (targetPath : string) (loaded files : list FileEntry) :
  updateFilesOnError targetPath (loadChildren_updateFiles targetPath files) =
    updateFilesOnError targetPath files /\
  updateFilesWithChildren targetPath loaded (loadChildren_updateFiles targetPath files) =
    updateFilesWithChildren targetPath loaded files /\
  loadChildren_updateFiles targetPath (loadChildren_updateFiles targetPath files) =
    loadChildren_updateFiles targetPath files /\
  toggleExpand_updateFiles targetPath
    (toggleExpand_updateFiles targetPath (toggleExpand_updateFiles targetPath files)) =
    toggleExpand_updateFiles targetPath files.
Proof.
  change (updateFilesOnError targetPath) with (mutate FailLoad targetPath).
  change (updateFilesWithChildren targetPath loaded)
    with (mutate (ApplyChildren loaded) targetPath).
  change (loadChildren_updateFiles targetPath) with (mutate BeginLoad targetPath).
  change (toggleExpand_updateFiles targetPath) with (mutate ToggleExpand targetPath).
  rewrite !mutate_traversal, !map_map.
  repeat split; apply map_ext; intros file;
    rewrite !updateNode_compose by reflexivity;
    apply updateNode_ext; intros f; try reflexivity.
  destruct f as [n p d s pm [[|]|] ch ld]; reflexivity.
Qed.

(** ** What the mutators keep *)

Lemma effect_identity (m : Mutation) (file : FileEntry) :
  name (effectOf m file) = name file /\
  path (effectOf m file) = path file /\
  isDirectory (effectOf m file) = isDirectory file /\
  size (effectOf m file) = size file /\
  permissions (effectOf m file) = permissions file.
Proof. destruct m; repeat split. Qed.

Lemma visited_identity (m : Mutation) (targetPath : string) (file : FileEntry) :
  let file' := updateNode (effectOf m) targetPath file in
  name file' = name file /\
  path file' = path file /\
  isDirectory file' = isDirectory file /\
  size file' = size file /\
  permissions file' = permissions file.
Proof.
  cbv zeta. rewrite updateNode_unfold.
  destruct (String.eqb (path file) targetPath); [apply effect_identity|].
  destruct (children file); repeat split.
Qed.

(** X8. No mutator renames, moves or retypes a node: the root entries keep
    their number, order and paths (the keys of the rendered rows), and
    every node the mutation does not discard keeps its name, path, kind,
    size and permissions. *)
Theorem mutators_keep_identity (m : Mutation) (targetPath : string) (files : list FileEntry) :
  map path (mutate m targetPath files) = map path files /\
  (forall pos file,
      nodeAt pos files = Some file ->
      targetAbove targetPath pos files = false \/ keepsChildren m = true ->
      exists file',
        nodeAt pos (mutate m targetPath files) = Some file' /\
        name file' = name file /\
        path file' = path file /\
        isDirectory file' = isDirectory file /\
        size file' = size file /\
        permissions file' = permissions file).
Proof.
  rewrite mutate_traversal. split.
  - rewrite map_map. apply map_ext. intros file. apply visited_identity.
  - intros pos file Hn Hcase.
    destruct (targetAbove targetPath pos files) eqn:Ha.
    + destruct Hcase as [Hcase|Hcase]; [discriminate|].
      exists file. split; [|repeat split].
      apply nodeAt_sheltered; [|assumption|assumption].
      apply effect_keeps_children, keepsChildren_spec, Hcase.
    + exists (updateNode (effectOf m) targetPath file).
      split; [exact (nodeAt_reached _ _ _ _ _ Hn Ha)|apply visited_identity].
Qed.

Lemma mutators_keep_identity_witness :
  exists file',
    nodeAt [0; 0]
      (mutate ToggleExpand "/var"
         [directoryNode "var" "/var" (Some true) (Some [fileNode "a.txt" "/var/a.txt" 1])]) =
      Some file' /\
    name file' = "a.txt" /\ path file' = "/var/a.txt" /\ isDirectory file' = false /\
    size file' = Some 1%Z /\ permissions file' = Some "-rw-r--r--".
Proof.
  apply (proj2 (mutators_keep_identity ToggleExpand "/var"
           [directoryNode "var" "/var" (Some true) (Some [fileNode "a.txt" "/var/a.txt" 1])])
           [0; 0] (fileNode "a.txt" "/var/a.txt" 1)).
  - reflexivity.
  - right. reflexivity.
Defined.

(** ** How a listing ends *)

Lemma orElse_nonEmpty (v : option string) (fallback : string) :
  fallback <> "" -> orElse v fallback <> "".
Proof.
  intros Hf. unfold orElse, truthyString. destruct v as [s|]; [|exact Hf].
  destruct (String.eqb_spec s ""); cbn; assumption.
Qed.

(** X9. [listFilesAtPath] succeeds exactly when a cluster is there and the
    [execFile] call was successful, with what the parser makes of the
    response; otherwise it throws an [Error] whose message is not empty, so
    the parser adds no failure of its own and a failure is never silent.
    Without a cluster the message says that the cluster is not available.
    After a failed call it is the standard error text when there is one
    that is not empty, else the error message when there is one that is not
    empty, else a fixed text. *)
Theorem listing_outcomes (env : Env) (targetPath : string) (settled : ExecResult) :
  match listFilesAtPath env targetPath settled with
  | Ok entries =>
      (exists c, cluster env = Some c) /\
      exists response,
        settled = CallSuccessful response /\
        parseListOutput response targetPath = Ok entries
  | Throw e =>
      (cluster env = None \/ exists stderr message, settled = CallFailed stderr message) /\
      exists message, e = ErrorObject message /\ message <> ""
  end /\
  (cluster env = None ->
   listFilesAtPath env targetPath settled =
   Throw (ErrorObject "Cluster not available. Ensure the cluster is connected.")) /\
  (forall c stderr message,
      cluster env = Some c -> settled = CallFailed stderr message ->
      exists text,
        listFilesAtPath env targetPath settled = Throw (ErrorObject text) /\
        (forall s, stderr = Some s -> s <> "" -> text = s) /\
        (stderr = None \/ stderr = Some "" ->
         forall m, message = Some m -> m <> "" -> text = m) /\
        (stderr = None \/ stderr = Some "" ->
         message = None \/ message = Some "" ->
         text = "Failed to run kubectl")).
Proof.
  split; [|split].
  - unfold listFilesAtPath, execKubectl.
    destruct (cluster env) as [c|] eqn:Hc; cbn [bind].
    + destruct settled as [response|stderr message]; cbn [bind].
      * destruct (parseListOutput_Ok response targetPath) as (entries & H & _).
        rewrite H. split; [eauto|]. exists response. auto.
      * split; [right; eauto|]. eexists. split; [reflexivity|].
        apply orElse_nonEmpty, orElse_nonEmpty. discriminate.
    + split; [now left|]. eexists. split; [reflexivity|discriminate].
  - intros Hc. unfold listFilesAtPath, execKubectl. now rewrite Hc.
  - intros c stderr message Hc ->. unfold listFilesAtPath, execKubectl. rewrite Hc.
    cbn [bind]. eexists. split; [reflexivity|].
    unfold orElse, truthyString. repeat split.
    + intros s -> Hs. apply String.eqb_neq in Hs. now rewrite Hs.
    + intros Hs m -> Hm. apply String.eqb_neq in Hm. rewrite Hm. cbn [negb].
      destruct Hs as [-> | ->]; reflexivity.
    + intros Hs Hm. destruct Hs as [-> | ->]; destruct Hm as [-> | ->]; reflexivity.
Qed.

Lemma listing_outcomes_witness :
  exists text,
    listFilesAtPath sampleEnv "/var" (CallFailed (Some "") (Some "exit code 1")) =
      Throw (ErrorObject text) /\
    text = "exit code 1".
Proof.
  destruct (proj2 (proj2 (listing_outcomes sampleEnv "/var"
              (CallFailed (Some "") (Some "exit code 1"))))
              {| kubeConfigPath := "/home/op/.kube/config"; contextName := "prod" |}
              (Some "") (Some "exit code 1") eq_refl eq_refl)
    as (text & Hthrow & _ & Hmessage & _).
  exists text. split; [exact Hthrow|].
  apply (Hmessage (or_intror eq_refl) "exit code 1" eq_refl). discriminate.
Defined.

Lemma listed_entries (env : Env) (targetPath : string) (settled : ExecResult)
    (loaded : list FileEntry) :
  listFilesAtPath env targetPath settled = Ok loaded ->
  exists response, parseListOutput response targetPath = Ok loaded.
Proof.
  unfold listFilesAtPath, execKubectl.
  destruct (cluster env); [|discriminate].
  destruct settled as [response|stderr message]; [|discriminate].
  cbn [bind]. eauto.
Qed.



(** ** Clicking a directory that is loaded *)

Lemma toggleExpand_twice_world (targetPath : string) (w : World) :
  forallb (expandedSetAt targetPath) (rootFiles (dialog w)) = true ->
  toggleExpand targetPath (toggleExpand targetPath w) = w.
Proof.
  intros H. apply toggle_twice_iff in H.
  destruct w as [[r l e] i f]. unfold toggleExpand, setRootFiles. cbn in *.
  now rewrite H.
Qed.

Lemma click_loaded (env : Env) (entry : FileEntry) (cs : list FileEntry) (w : World) :
  isDirectory entry = true -> children entry = Some cs ->
  click env entry w = toggleExpand (path entry) w.
Proof.
  intros Hdir Hch. unfold click, FileTreeNode_button, expandButton_onClick.
  rewrite Hdir, Hch. cbn [isUndefined]. rewrite andb_false_r. reflexivity.
Qed.

(** X11. A click on the expand button of a directory whose children are
    loaded, an empty sequence included, calls [execFile] never and only
    toggles the node; when the nodes with its path hold a boolean in
    [expanded], a second click on the same button brings the dialog back
    to the state before the first. *)
Theorem click_on_loaded_directory (env : Env) (pos : list nat) (w : World)
    (entry : FileEntry) (cs : list FileEntry)
    (Hnode : nodeAt pos (rootFiles (dialog w)) = Some entry)
    (Hdir : isDirectory entry = true)
    (Hloaded : children entry = Some cs) :
  clickAt env pos w = toggleExpand (path entry) w /\
  invocations (clickAt env pos w) = invocations w /\
  (forallb (expandedSetAt (path entry)) (rootFiles (dialog w)) = true ->
   clickAt env pos (clickAt env pos w) = w).
Proof.
  assert (H1 : clickAt env pos w = toggleExpand (path entry) w).
  { unfold clickAt. rewrite Hnode. now apply click_loaded with cs. }
  split; [exact H1|]. split; [now rewrite H1|].
  intros Hset. rewrite H1.
  assert (H2 : exists entry',
             nodeAt pos (rootFiles (dialog (toggleExpand (path entry) w))) = Some entry' /\
             path entry' = path entry /\ isDirectory entry' = true /\
             children entry' = Some cs).
  { unfold toggleExpand, setRootFiles. cbn [dialog rootFiles].
    change (toggleExpand_updateFiles (path entry) (rootFiles (dialog w)))
      with (mutate ToggleExpand (path entry) (rootFiles (dialog w))).
    rewrite mutate_traversal.
    destruct (targetAbove (path entry) pos (rootFiles (dialog w))) eqn:Ha.
    - exists entry. split; [|auto].
      apply nodeAt_sheltered; [reflexivity|assumption|assumption].
    - eexists. split; [exact (nodeAt_reached _ _ _ _ _ Hnode Ha)|].
      rewrite updateNode_unfold, String.eqb_refl. cbn. auto. }
  destruct H2 as (entry' & Hn' & Hp' & Hd' & Hc').
  unfold clickAt at 1. rewrite Hn', (click_loaded env entry' cs _ Hd' Hc'), Hp'.
  now apply toggleExpand_twice_world.
Qed.

Lemma click_on_loaded_directory_witness :
  clickAt sampleEnv [0]
    (clickAt sampleEnv [0] (worldOf [directoryNode "var" "/var" (Some false) (Some [])])) =
  worldOf [directoryNode "var" "/var" (Some false) (Some [])].
Proof.
  apply (proj2 (proj2 (click_on_loaded_directory sampleEnv [0]
           (worldOf [directoryNode "var" "/var" (Some false) (Some [])])
           (directoryNode "var" "/var" (Some false) (Some [])) []
           eq_refl eq_refl eq_refl))).
  reflexivity.
Defined.

(** ** The runs of the dialog *)

Lemma parsed_neverLoaded (output : RawOutput) (basePath : string)
    (entries : list FileEntry) :
  parseListOutput output basePath = Ok entries -> Forall neverLoaded entries.
Proof.
  intros H. apply Forall_forall. intros e Hin.
  destruct (parsed_entries_from_lines _ _ _ _ H Hin) as (line & Hline).
  apply parseLine_Some in Hline as (_ & _ & _ & _ & Hc & _ & He & Hl).
  unfold neverLoaded. eauto.
Qed.

Lemma toggle_neverLoaded (targetPath : string) (e : FileEntry) :
  neverLoaded e -> neverLoaded (toggleExpand_file targetPath e).
Proof.
  destruct e as [n p d s pm ex ch ld]. unfold neverLoaded. cbn.
  intros (Hc & Hl & b & Hb). subst.
  destruct (String.eqb p targetPath); cbn; [eauto|].
  destruct d; cbn; eauto.
Qed.

Lemma nodeAt_flat (pos : list nat) (files : list FileEntry) (entry : FileEntry) :
  Forall neverLoaded files -> nodeAt pos files = Some entry -> In entry files.
Proof.
  intros Hall. destruct pos as [|i rest]; [discriminate|]. cbn [nodeAt].
  destruct (nth_error files i) as [f|] eqn:Hi; [|discriminate].
  pose proof (nth_error_In _ _ Hi) as Hin.
  destruct rest as [|j rest'].
  - now intros [= <-].
  - rewrite Forall_forall in Hall. destruct (Hall f Hin) as (Hc & _).
    rewrite Hc. destruct (isDirectory f); [|discriminate].
    cbn. destruct j; discriminate.
Qed.

Lemma click_neverLoaded (env : Env) (pos : list nat) (w : World) :
  Forall neverLoaded (rootFiles (dialog w)) ->
  clickAt env pos w = w \/
  exists targetPath, clickAt env pos w = toggleExpand targetPath w.
Proof.
  intros Hall. unfold clickAt.
  destruct (nodeAt pos (rootFiles (dialog w))) as [entry|] eqn:Hn; [|now left].
  pose proof (nodeAt_flat _ _ _ Hall Hn) as Hin.
  rewrite Forall_forall in Hall. destruct (Hall entry Hin) as (Hc & _).
  destruct (isDirectory entry) eqn:Hd.
  - right. exists (path entry). now apply click_loaded with [].
  - left. unfold click, FileTreeNode_button. now rewrite Hd.
Qed.

Lemma step_neverListsChildren (env : Env) (home : option string) (w w' : World) :
  neverListsChildren env home w -> dialogStep env home w w' ->
  neverListsChildren env home w'.
Proof.
  intros (Hf & Hi & Hr) Hstep.
  destruct Hstep as [w|w settled|w pos|w pos entry Hn Hd|w p settled Hin].
  - unfold neverListsChildren, loadRootFiles_start, setError, setLoading. cbn.
    repeat split; [assumption| |assumption].
    destruct (cluster env); [|assumption].
    apply Forall_app. split; [assumption|]. constructor; [now left|constructor].
  - unfold neverListsChildren, loadRootFiles_settle.
    destruct (listFilesAtPath env "/" settled) as [files|err] eqn:Hl; cbn.
    + repeat split; try assumption.
      destruct (listed_entries _ _ _ _ Hl) as (response & Hp).
      exact (parsed_neverLoaded _ _ _ Hp).
    + repeat split; try assumption. constructor.
  - destruct (click_neverLoaded env pos w Hr) as [-> | (p & ->)].
    + now repeat split.
    + unfold neverListsChildren, toggleExpand, setRootFiles. cbn.
      repeat split; try assumption.
      unfold toggleExpand_updateFiles. apply Forall_map.
      eapply Forall_impl; [|exact Hr]. intros e. apply toggle_neverLoaded.
  - unfold neverListsChildren, downloadFile_start. cbn.
    repeat split; [assumption| |assumption].
    destruct (cluster env); [|assumption].
    apply Forall_app. split; [assumption|].
    constructor; [right; now exists (path entry)|constructor].
  - rewrite Hf in Hin. contradiction.
Qed.

Lemma reachable_neverListsChildren (env : Env) (home : option string) (w : World) :
  reachable env home w -> neverListsChildren env home w.
Proof.
  induction 1 as [|w w' _ IH Hstep].
  - repeat split; constructor.
  - exact (step_neverListsChildren env home w w' IH Hstep).
Qed.

Lemma rows_neverLoaded (files : list FileEntry) :
  Forall neverLoaded files ->
  flat_map (FileTreeNode 0) files = map (rowOf 0) files.
Proof.
  induction 1 as [|e l (Hc & _) _ IH]; [reflexivity|].
  cbn [flat_map map]. rewrite IH. f_equal.
  destruct e as [n p d s pm ex ch ld]. cbn in *. subst ch.
  destruct d; cbn; [|reflexivity]. now rewrite andb_false_r.
Qed.

Lemma argsEqb_eq (a b : list string) : argsEqb a b = true -> a = b.
Proof.
  revert b. induction a as [|x a IH]; intros [|y b] H; cbn in H;
    try discriminate; [reflexivity|].
  apply andb_prop in H as [Hxy Hab]. apply String.eqb_eq in Hxy.
  now rewrite Hxy, (IH b Hab).
Qed.

Lemma listArgs_injective (env : Env) (p q : string) :
  listArgs env p = listArgs env q -> p = q.
Proof.
  intros H. unfold listArgs, buildKubectlArgs in H. apply app_inv_head in H.
  apply (f_equal (fun args => nth 10 args "")) in H. cbn [nth] in H.
  now apply listCommand_injective.
Qed.

Lemma copy_is_no_listing (env : Env) (home : option string) (filePath targetPath : string) :
  downloadArgs env home filePath <> listArgs env targetPath.
Proof.
  intros H. unfold downloadArgs, listArgs, buildKubectlArgs in H.
  apply app_inv_head in H. discriminate H.
Qed.

(** X12. In every state the dialog can reach from its mount, by root
    listings that start and settle, by clicks on the expand button of any
    node and by clicks on the Download button of any file, each directory
    holds the empty sequence as its children and no load of children is in
    flight: the parser hands out directories with an empty array, which the
    expand button takes for loaded.  So no click on an expand button calls
    [execFile], every call made so far lists the root or copies a file, no
    path other than the root has ever been listed, and the tree shows one
    row for each root entry and nothing below. *)
Theorem children_are_never_listed (env : Env) (home : option string) (w : World)
    (Hreach : reachable env home w) :
  inFlight w = [] /\
  Forall (rootListingOrCopy env home) (invocations w) /\
  Forall neverLoaded (rootFiles (dialog w)) /\
  (forall pos, invocations (clickAt env pos w) = invocations w) /\
  (forall targetPath, targetPath <> "/" -> listingsOf env targetPath w = 0) /\
  flat_map (FileTreeNode 0) (rootFiles (dialog w)) = map (rowOf 0) (rootFiles (dialog w)).
Proof.
  destruct (reachable_neverListsChildren env home w Hreach) as (Hf & Hi & Hr).
  repeat split; try assumption.
  - intros pos. destruct (click_neverLoaded env pos w Hr) as [-> | (p & ->)]; reflexivity.
  - intros targetPath Hne. unfold listingsOf.
    induction Hi as [|call calls Hcall _ IH]; [reflexivity|].
    cbn [filter].
    destruct (argsEqb (snd call) (listArgs env targetPath)) eqn:Heq; [|exact IH].
    exfalso. apply argsEqb_eq in Heq.
    destruct Hcall as [-> | (filePath & ->)]; cbn [snd] in Heq.
    + apply listArgs_injective in Heq. congruence.
    + exact (copy_is_no_listing env home filePath targetPath Heq).
  - now apply rows_neverLoaded.
Qed.

Lemma children_are_never_listed_witness :
  let w := downloadFile_start sampleEnv (Some "/home/op") "/readme.txt"
             (clickAt sampleEnv [0]
                (loadRootFiles_settle sampleEnv (CallSuccessful (StringValue scenarioText))
                   (loadRootFiles_start sampleEnv initialWorld))) in
  inFlight w = [] /\
  Forall (rootListingOrCopy sampleEnv (Some "/home/op")) (invocations w) /\
  Forall neverLoaded (rootFiles (dialog w)) /\
  (forall pos, invocations (clickAt sampleEnv pos w) = invocations w) /\
  (forall targetPath, targetPath <> "/" -> listingsOf sampleEnv targetPath w = 0) /\
  flat_map (FileTreeNode 0) (rootFiles (dialog w)) = map (rowOf 0) (rootFiles (dialog w)).
Proof.
  cbv zeta.
  apply (children_are_never_listed sampleEnv (Some "/home/op")).
  apply reachable_step
    with (w := clickAt sampleEnv [0]
                 (loadRootFiles_settle sampleEnv (CallSuccessful (StringValue scenarioText))
                    (loadRootFiles_start sampleEnv initialWorld))).
  - apply reachable_step
      with (w := loadRootFiles_settle sampleEnv (CallSuccessful (StringValue scenarioText))
                   (loadRootFiles_start sampleEnv initialWorld));
      [|apply step_click].
    apply reachable_step with (w := loadRootFiles_start sampleEnv initialWorld);
      [|apply step_root_settled].
    apply reachable_step with (w := initialWorld); [|apply step_mount].
    apply reachable_initial.
  - apply (step_download sampleEnv (Some "/home/op") _ [1]
             (fileNode "readme.txt" "/readme.txt" 120)); reflexivity.
Defined.

(** The click of the witness expands the directory and lists nothing. *)
Example expanded_directory_shows_nothing :
  let w := clickAt sampleEnv [0]
             (loadRootFiles_settle sampleEnv (CallSuccessful (StringValue scenarioText))
                (loadRootFiles_start sampleEnv initialWorld)) in
  option_map expanded (nodeAt [0] (rootFiles (dialog w))) = Some (Some true) /\
  option_map children (nodeAt [0] (rootFiles (dialog w))) = Some (Some []) /\
  length (invocations w) = 1.
Proof. vm_compute. repeat split. Qed.

(** ** Downloads *)

Lemma split_free (sep : ascii) (s : string) :
  (forall pre post, s <> pre ++ String sep post) -> Js.split sep s = [s].
Proof.
  induction s as [|c r IH]; intros Hfree; [reflexivity|].
  cbn [Js.split]. destruct (Ascii.eqb_spec c sep) as [->|Hc].
  - exfalso. apply (Hfree "" r). reflexivity.
  - rewrite IH; [reflexivity|].
    intros pre post Heq. apply (Hfree (String c pre) post). cbn. now rewrite Heq.
Qed.

Lemma slashFree_no_slash (s : string) :
  slashFree s = true -> forall pre post, s <> pre ++ String SLASH post.
Proof.
  induction s as [|c r IH]; intros H pre post Heq.
  - destruct pre; discriminate.
  - cbn [slashFree] in H. apply andb_prop in H as [Hc Hr].
    apply negb_true_iff, Ascii.eqb_neq in Hc.
    destruct pre as [|x pre']; cbn in Heq; injection Heq as Hx Heq.
    + contradiction.
    + exact (IH Hr pre' post Heq).
Qed.

Lemma split_segments (s : string) : Forall (fun seg => slashFree seg = true) (Js.split SLASH s).
Proof.
  induction s as [|c r IH]; [repeat constructor|].
  cbn [Js.split]. destruct (Ascii.eqb c SLASH) eqn:Hc.
  - constructor; [reflexivity|exact IH].
  - pose proof (split_nonempty SLASH r) as Hne.
    destruct (Js.split SLASH r) as [|h t]; [contradiction|].
    inversion IH as [|? ? Hh Ht]; subst.
    constructor; [|exact Ht]. cbn [slashFree]. now rewrite Hc, Hh.
Qed.

Lemma pop_app (l1 l2 : list string) : l2 <> [] -> pop (l1 ++ l2) = pop l2.
Proof.
  intros Hne. induction l1 as [|x l1 IH]; [reflexivity|].
  cbn [app pop]. destruct (l1 ++ l2)%list eqn:Heq; [|exact IH].
  apply app_eq_nil in Heq as [_ ->]. contradiction.
Qed.

Lemma pop_In (l : list string) (x : string) : pop l = Some x -> In x l.
Proof.
  induction l as [|y l IH]; [discriminate|].
  cbn [pop]. destruct l as [|z l'].
  - intros [= ->]. now left.
  - intros H. right. exact (IH H).
Qed.

(** X13. The name under which [downloadFile] saves a file is never empty
    and holds no slash, so the file lands in the download directory
    itself; it is the last segment of the remote path, which for a path
    made of a parent, a slash and a name without slashes is that name, and
    it is the fixed name [download] when the path ends in a slash. *)
Theorem download_file_name :
  (forall filePath,
      downloadFileName filePath <> "" /\ slashFree (downloadFileName filePath) = true) /\
  (forall parent fileName,
      slashFree fileName = true -> fileName <> "" ->
      downloadFileName (parent ++ String SLASH fileName) = fileName) /\
  (forall parent, downloadFileName (parent ++ String SLASH "") = "download").
Proof.
  split; [|split].
  - intros filePath. unfold downloadFileName, orElse, truthyString.
    destruct (pop (Js.split SLASH filePath)) as [seg|] eqn:Hp; [|split; [discriminate|reflexivity]].
    destruct (String.eqb_spec seg ""); cbn [negb]; [split; [discriminate|reflexivity]|].
    split; [assumption|].
    pose proof (split_segments filePath) as Hs. rewrite Forall_forall in Hs.
    apply Hs, pop_In, Hp.
  - intros parent fileName Hfree Hne. unfold downloadFileName.
    rewrite split_app, pop_app by apply split_nonempty.
    rewrite (split_free SLASH fileName (slashFree_no_slash fileName Hfree)).
    cbn [pop]. unfold orElse, truthyString.
    destruct (String.eqb_spec fileName ""); [contradiction|reflexivity].
  - intros parent. unfold downloadFileName.
    rewrite split_app, pop_app by apply split_nonempty. reflexivity.
Qed.

Lemma download_file_name_witness :
  downloadFileName ("/var/log" ++ String SLASH "app.log") = "app.log".
Proof.
  apply (proj1 (proj2 download_file_name) "/var/log" "app.log").
  - reflexivity.
  - discriminate.
Defined.

(** ** Escaping and the argument vector *)

Lemma safePath_quoteFree (p : string) : quoteFree p = true -> safePath p = p.
Proof.
  induction p as [|c p IH]; [reflexivity|].
  cbn [quoteFree]. intros H. apply andb_prop in H as [Hc Hp].
  apply negb_true_iff in Hc. now rewrite safePath_cons, Hc, IH.
Qed.

(** X14. Escaping loses nothing and adds only what it must: two different
    paths never get the same escaped form, nor the same listing command,
    nor the same argument vector, and a path without double quotes is
    passed as it is. *)
Theorem escaping_is_injective :
  (forall p q, safePath p = safePath q -> p = q) /\
  (forall p q, listCommand p = listCommand q -> p = q) /\
  (forall env p q, listArgs env p = listArgs env q -> p = q) /\
  (forall p, quoteFree p = true -> safePath p = p).
Proof.
  assert (Hcmd : forall p q, listCommand p = listCommand q -> p = q).
  { intros p q H. unfold listCommand in H. cbn [append] in H.
    injection H as H. apply append_cancel_r in H. now apply safePath_injective. }
  repeat split.
  - apply safePath_injective.
  - exact Hcmd.
  - intros env p q H. unfold listArgs, buildKubectlArgs in H.
    apply app_inv_head in H.
    apply (f_equal (fun args => nth 10 args "")) in H. cbn [nth] in H. now apply Hcmd.
  - apply safePath_quoteFree.
Qed.

Lemma escaping_is_injective_witness :
  safePath "/var/my dir" = "/var/my dir".
Proof.
  apply (proj2 (proj2 (proj2 escaping_is_injective)) "/var/my dir"). reflexivity.
Defined.

(** X15. In the escaped path every double quote stands right behind a
    backslash. *)
Theorem escaped_quotes_follow_backslash (targetPath pre post : string)
    (Hsplit : safePath targetPath = pre ++ String Js.DQUOTE post) :
  exists pre', pre = pre' ++ String Js.BACKSLASH EmptyString.
Proof. exact (safePath_quote_preceded targetPath pre post Hsplit). Qed.

Lemma escaped_quotes_follow_backslash_witness :
  exists pre', "/a\" = pre' ++ String Js.BACKSLASH EmptyString.
Proof.
  apply (escaped_quotes_follow_backslash ("/a" ++ String Js.DQUOTE "b") "/a\" "b").
  reflexivity.
Defined.

(** ** Rows while a load is under way *)

Lemma rowShape_withLoading (v : option bool) (level : nat) (file : FileEntry) :
  rowShape (rowOf level (withLoading v file)) = rowShape (rowOf level file).
Proof. unfold rowShape, rowOf. cbn. now destruct (isDirectory file). Qed.

Lemma isEmpty_map {A B : Type} (f : A -> B) (l : list A) : isEmpty (map f l) = isEmpty l.
Proof. now destruct l. Qed.

Lemma rows_flagged (v : option bool) (targetPath : string) (file : FileEntry) :
  forall level,
    map rowShape (FileTreeNode level (updateNode (withLoading v) targetPath file)) =
    map rowShape (FileTreeNode level file).
Proof.
  induction file as [file IH] using FileEntry_tree_ind.
  intros level. rewrite updateNode_unfold.
  destruct (String.eqb (path file) targetPath).
  - destruct file as [n p d s pm ex ch ld]. cbn [FileTreeNode children expanded withLoading map].
    f_equal. apply (rowShape_withLoading v level (mkFileEntry n p d s pm ex ch ld)).
  - destruct file as [n p d s pm ex [cs|] ld]; [|reflexivity].
    unfold allChildren in IH. cbn [children] in IH.
    cbn [FileTreeNode children expanded withChildren map]. f_equal.
    rewrite isEmpty_map.
    destruct (truthy ex && negb (isEmpty cs)); [|reflexivity].
    clear -IH. induction IH as [|x l Hx _ IHl]; [reflexivity|].
    cbn [map flat_map]. rewrite !map_app, Hx, IHl. reflexivity.
Qed.

(** X16. Flagging a node as loading, and clearing the flag after a
    failure, change nothing in the rows of the tree but the text of expand
    buttons: the same rows are shown, in the same order and at the same
    levels, with the same names, sizes and download buttons. *)
Theorem loading_flag_keeps_rows (targetPath : string) (files : list FileEntry) :
  map rowShape (flat_map (FileTreeNode 0) (loadChildren_updateFiles targetPath files)) =
    map rowShape (flat_map (FileTreeNode 0) files) /\
  map rowShape (flat_map (FileTreeNode 0) (updateFilesOnError targetPath files)) =
    map rowShape (flat_map (FileTreeNode 0) files).
Proof.
  change (loadChildren_updateFiles targetPath files)
    with (mutate BeginLoad targetPath files).
  change (updateFilesOnError targetPath files) with (mutate FailLoad targetPath files).
  rewrite !mutate_traversal.
  split; induction files as [|x l IH]; try reflexivity;
    cbn [map flat_map]; rewrite !map_app, IH; f_equal;
    apply (rows_flagged _ targetPath x 0).
Qed.

(** ** The root listing *)



(** ** The arguments every call shares *)

(** X18. [buildKubectlArgs] leaves the command arguments as they are, at
    the end, and puts in front of them only the kubeconfig flag and the
    context flag, each with a value that is not empty and only when the
    cluster has one; without a cluster it adds nothing.  So the listing
    and the download are called with the same leading arguments. *)
Theorem kubectl_arguments (env : Env) :
  exists leading,
    (forall commandArgs, buildKubectlArgs env commandArgs = (leading ++ commandArgs)%list) /\
    Forall nonEmpty leading /\
    (cluster env = None -> leading = []) /\
    (forall c, cluster env = Some c ->
       leading =
         ((if truthyString (kubeConfigPath c) then ["--kubeconfig"; kubeConfigPath c] else []) ++
          (if truthyString (contextName c) then ["--context"; contextName c] else []))%list) /\
    (forall targetPath home filePath,
       firstn (length leading) (listArgs env targetPath) = leading /\
       firstn (length leading) (downloadArgs env home filePath) = leading).
Proof.
  unfold listArgs, downloadArgs, buildKubectlArgs.
  destruct (cluster env) as [c|].
  - eexists. split; [reflexivity|]. split; [|split; [discriminate|split]].
    + unfold truthyString.
      destruct (String.eqb_spec (kubeConfigPath c) "");
        destruct (String.eqb_spec (contextName c) ""); cbn;
        repeat constructor; try discriminate; assumption.
    + intros c' [= <-]. reflexivity.
    + intros targetPath home filePath.
      split; rewrite firstn_app, Nat.sub_diag, firstn_all; cbn [firstn]; apply app_nil_r.
  - exists []. repeat split; try constructor; discriminate.
Qed.

Lemma kubectl_arguments_witness :
  exists leading,
    (forall commandArgs,
        buildKubectlArgs sampleEnv commandArgs = (leading ++ commandArgs)%list) /\
    leading = ["--kubeconfig"; "/home/op/.kube/config"; "--context"; "prod"].
Proof.
  destruct (kubectl_arguments sampleEnv) as (leading & Hall & _ & _ & Hc & _).
  exists leading. split; [exact Hall|].
  exact (Hc {| kubeConfigPath := "/home/op/.kube/config"; contextName := "prod" |} eq_refl).
Defined.
